(** * Smart-insurance portal: the dynamic form page

    A shallow embedding of [DynamicFormPage] and [FieldRenderer]
    (src/pages/SubmissionListPage.tsx, second document of the file), of the
    types of src/types/formTypes.ts and of [submitFormData]
    (src/services/api.ts), followed by the properties of the form engine:
    visibility, rendering, reordering, dynamic options, drafts and submission.

    React state ([useState]), the antd form store, [localStorage] and the
    network are made explicit in one [state] record; every handler of the page
    is a function on that record.  An [await] splits a handler in two: the part
    that runs when the event fires, and the continuation that runs when the
    awaited request settles. *)

From Stdlib Require Import ZArith String Ascii List Bool Lia.
From Stdlib Require Import Decimal DecimalPos DecimalZ.
From stdpp Require Import base option list gmap strings fin_maps.

Local Open Scope string_scope.
Local Open Scope Z_scope.
Local Open Scope list_scope.

(** ** JavaScript values held by a form

    An answer is a scalar (a string, a number, a boolean, [null]) or an array
    of scalars (a checkbox group).  [undefined] is the absence of a value:
    a [Record<string, any>] is a finite map, and reading a key it does not
    hold gives [None].  Numbers are the integers, which is what the number
    inputs of the form produce. *)

Inductive scalar : Type :=
| SNull
| SBool (b : bool)
| SNum (n : Z)
| SStr (s : string).

Inductive value : Type :=
| VScalar (s : scalar)
| VArray (l : list scalar).

Coercion VScalar : scalar >-> value.

#[global] Instance scalar_eq_dec : EqDecision scalar.
Proof. solve_decision. Defined.

#[global] Instance value_eq_dec : EqDecision value.
Proof. solve_decision. Defined.

(** [Record<string, any>]: the form values, the payload of a submission. *)
Abbreviation AnswerSet := (gmap string value).

(** JavaScript truthiness of a scalar: [null], [false], [0] and the empty
    string are falsy. *)
Definition scalar_truthy (s : scalar) : bool :=
  match s with
  | SNull => false
  | SBool b => b
  | SNum n => negb (n =? 0)
  | SStr s => negb (String.eqb s EmptyString)
  end.

(** Truthiness of a value read from a record; every array, the empty one
    included, is truthy, and [undefined] is falsy. *)
Definition truthy (v : option value) : bool :=
  match v with
  | None => false
  | Some (VScalar s) => scalar_truthy s
  | Some (VArray _) => true
  end.

(** [!v] *)
Definition falsy (v : option value) : bool := negb (truthy v).

(** [v === s] for a string [s]: a value of another type, or no value, is
    never equal to it. *)
Definition strict_eq_string (v : option value) (s : string) : bool :=
  match v with
  | Some (VScalar (SStr s')) => String.eqb s' s
  | _ => false
  end.

(** ** src/types/formTypes.ts *)

Record DynamicOptions : Type := {
  do_dependsOn : string;
  do_endpoint : string;
  do_method : string
}.

(** [condition] is a string at run time: the form definitions come from the
    server, so a value outside "equals" | "not_equals" can arrive. *)
Record Visibility : Type := {
  dependsOn : string;
  condition : string;
  vis_value : string
}.

Record Validation : Type := {
  min : option Z;
  max : option Z;
  pattern : option string
}.

(** [BaseField] with the [type] of [SimpleField]; optional members are
    options.  [type] is a string for the same reason as [condition]. *)
Record SimpleField : Type := {
  id : string;
  label : string;
  type : string;
  required : option bool;
  options : option (list string);
  dynamicOptions_of : option DynamicOptions;
  visibility : option Visibility;
  validation : option Validation
}.

Record GroupField : Type := {
  g_id : string;
  g_label : string;
  g_fields : list SimpleField
}.

(** [FieldItem = SimpleField | GroupField]; the tag [type === "group"] is the
    constructor. *)
Inductive FieldItem : Type :=
| Simple (f : SimpleField)
| Group (g : GroupField).

Record FormStructure : Type := {
  formId : string;
  title : string;
  fields : list FieldItem
}.

#[global] Instance DynamicOptions_eq_dec : EqDecision DynamicOptions.
Proof. solve_decision. Defined.

#[global] Instance Visibility_eq_dec : EqDecision Visibility.
Proof. solve_decision. Defined.

#[global] Instance Validation_eq_dec : EqDecision Validation.
Proof. solve_decision. Defined.

#[global] Instance SimpleField_eq_dec : EqDecision SimpleField.
Proof. solve_decision. Defined.

#[global] Instance GroupField_eq_dec : EqDecision GroupField.
Proof. solve_decision. Defined.

#[global] Instance FieldItem_eq_dec : EqDecision FieldItem.
Proof. solve_decision. Defined.

#[global] Instance FormStructure_eq_dec : EqDecision FormStructure.
Proof. solve_decision. Defined.

Definition isGroup (item : FieldItem) : bool :=
  match item with
  | Group _ => true
  | Simple _ => false
  end.

Definition item_id (item : FieldItem) : string :=
  match item with
  | Simple f => id f
  | Group g => g_id g
  end.

(** [field.required] used as a condition. *)
Definition is_required (f : SimpleField) : bool :=
  match required f with
  | Some b => b
  | None => false
  end.

(** ** Visibility *)

Definition shouldShowField (field : SimpleField) (values : AnswerSet) : bool :=
  match visibility field with
  | None => true
  | Some vis =>
      let dependsValue := values !! dependsOn vis in
      if String.eqb (condition vis) "equals" then
        strict_eq_string dependsValue (vis_value vis)
      else if String.eqb (condition vis) "not_equals" then
        negb (strict_eq_string dependsValue (vis_value vis))
      else true
  end.

(** ** FieldRenderer *)

(** The control inside a [Form.Item]. A [Select.Option] is its value and its
    text. *)
Inductive Control : Type :=
| CInput
| CInputNumber (lo hi : option Z)
| CDatePicker
| CSelect (opts : list (string * string))
| CRadioGroup (opts : list string)
| CCheckboxGroup (opts : list string).

(** A validation rule [{ required: true, message }]. *)
Record Rule : Type := { rule_required : bool; rule_message : string }.

Record FormItem : Type := {
  fi_name : string;
  fi_label : string;
  fi_rules : list Rule;
  fi_valuePropName : option string;
  fi_control : Control
}.

Section Render.

(** The translation function of react-i18next. *)
Variable t : string → string.

Definition rules_of (field : SimpleField) : list Rule :=
  if is_required field
  then [ {| rule_required := true; rule_message := t "required" |} ]
  else [].

(** The placeholder option followed by one option per choice. *)
Definition select_options (opts : list string) : list (string * string) :=
  (EmptyString, t "selectAnOption") :: map (λ o, (o, o)) opts.

(** [field.options || []] *)
Definition options_or_empty (field : SimpleField) : list string :=
  default [] (options field).

(** [None] is the [null] a component returns to render nothing.
    [vals] is [formInstance.getFieldsValue()]. *)
Definition FieldRenderer (field : SimpleField) (vals : AnswerSet)
    (dynamicOptions : gmap string (list string)) : option FormItem :=
  let rules := rules_of field in
  if String.eqb (id field) "country" then
    Some {| fi_name := "country"; fi_label := t "country"; fi_rules := rules;
            fi_valuePropName := None;
            fi_control := CSelect (select_options (options_or_empty field)) |}
  else if String.eqb (id field) "state" then
    if falsy (vals !! "country") then None
    else
      Some {| fi_name := "state"; fi_label := t "state"; fi_rules := rules;
              fi_valuePropName := None;
              fi_control :=
                CSelect (select_options
                  (match dynamicOptions !! "state" with
                   | Some os => os
                   | None => options_or_empty field
                   end)) |}
  else
    let item c vp :=
      Some {| fi_name := id field; fi_label := label field; fi_rules := rules;
              fi_valuePropName := vp; fi_control := c |} in
    if String.eqb (type field) "text" then item CInput None
    else if String.eqb (type field) "number" then
      item (CInputNumber (validation field ≫= min) (validation field ≫= max)) None
    else if String.eqb (type field) "date" then item CDatePicker None
    else if String.eqb (type field) "select" then
      item (CSelect (select_options (options_or_empty field))) None
    else if String.eqb (type field) "radio" then
      item (CRadioGroup (options_or_empty field)) None
    else if String.eqb (type field) "checkbox" then
      item (CCheckboxGroup (options_or_empty field)) (Some "checked")
    else None.

(** What one item of [selectedForm.fields.map(...)] yields: [None] for
    [null], otherwise a [SortableItem] keyed by the item's id.  A group
    holds its heading and one [FieldRenderer] element per visible member,
    keyed by the member's id; a simple field holds its [FieldRenderer]
    element. *)
Inductive Sortable : Type :=
| SGroup (key : string) (heading : string)
    (children : list (string * option FormItem))
| SField (key : string) (child : option FormItem).

Definition render_item (formValues : AnswerSet)
    (dynamicOptions : gmap string (list string)) (item : FieldItem)
    : option Sortable :=
  match item with
  | Group g =>
      let visibleSubFields :=
        List.filter (λ f, shouldShowField f formValues) (g_fields g) in
      if (length visibleSubFields =? 0)%nat then None
      else
        Some (SGroup (g_id g) (g_label g)
                (map (λ subField,
                        (id subField,
                         FieldRenderer subField formValues dynamicOptions))
                     visibleSubFields))
  | Simple f =>
      if negb (shouldShowField f formValues) then None
      else Some (SField (id f) (FieldRenderer f formValues dynamicOptions))
  end.

Definition render_fields (formValues : AnswerSet)
    (dynamicOptions : gmap string (list string)) (items : list FieldItem)
    : list (option Sortable) :=
  map (render_item formValues dynamicOptions) items.

End Render.

(** ** The network

    [api.get] and [api.post] of src/services/api.ts.  A request is recorded
    when it is sent; it settles later with a response or a rejection. *)

Inductive Call : Type :=
| ApiGet (url : string) (country : option value)
| ApiPost (url : string) (data : AnswerSet).

(** The [states] member of a response body: an array of strings, or anything
    else (a missing member is [NotArray None]). *)
Inductive StatesField : Type :=
| StatesArray (l : list string)
| NotArray (v : option scalar).

(** [res.data]: without a body, reading [res.data.states] throws. *)
Inductive Body : Type :=
| NoData
| Data (states : StatesField).

Inductive Response : Type :=
| Rejected
| Resolved (body : Body).

(** What a [try] block can catch. *)
Inductive Thrown : Type :=
| RequestError
| TypeError.

(** ** The page state *)

Inductive Message : Type :=
| MsgSuccess (text : string)
| MsgError (text : string).

(** What resumes when a request settles: the rest of [onValuesChange] after
    [await handleCountryChange(...)], with the [selectedForm] and the
    [allValues] its closure holds, or the rest of [onFinish] after
    [await submitFormData(values)]. *)
Inductive Awaiting : Type :=
| AwaitStates (closureForm : option FormStructure) (allValues : AnswerSet)
| AwaitSubmit.

Record state : Type := {
  selectedForm : option FormStructure;
  formValues : AnswerSet;                     (* Form.useWatch([], form) *)
  fieldErrors : gmap string (list string);    (* errors set by form.setFields *)
  dynamicOptions : gmap string (list string);
  submitting : bool;
  localStorage : gmap string string;
  calls : list Call;                          (* requests sent, oldest first *)
  awaiting : gmap nat Awaiting;               (* by position in [calls] *)
  messages : list Message;                    (* antd message.success / .error *)
  location : string;                          (* the route, set by navigate *)
  selectedIsCopy : bool                       (* selectedForm is an object made
                                                 by handleDragEnd, not one of
                                                 the fetched forms *)
}.

(** [setSelectedForm(f)] with one of the fetched forms, or [null]. *)
Definition setSelectedForm (f : option FormStructure) (st : state) : state :=
  {| selectedForm := f; formValues := formValues st;
     fieldErrors := fieldErrors st; dynamicOptions := dynamicOptions st;
     submitting := submitting st; localStorage := localStorage st;
     calls := calls st; awaiting := awaiting st; messages := messages st;
     location := location st; selectedIsCopy := false |}.

(** [setSelectedForm({ ...selectedForm, fields })]: a new object. *)
Definition setSelectedCopy (f : FormStructure) (st : state) : state :=
  {| selectedForm := Some f; formValues := formValues st;
     fieldErrors := fieldErrors st; dynamicOptions := dynamicOptions st;
     submitting := submitting st; localStorage := localStorage st;
     calls := calls st; awaiting := awaiting st; messages := messages st;
     location := location st; selectedIsCopy := true |}.

Definition setFormValues (v : AnswerSet) (st : state) : state :=
  {| selectedForm := selectedForm st; formValues := v;
     fieldErrors := fieldErrors st; dynamicOptions := dynamicOptions st;
     submitting := submitting st; localStorage := localStorage st;
     calls := calls st; awaiting := awaiting st; messages := messages st;
     location := location st;
     selectedIsCopy := selectedIsCopy st |}.

Definition setFieldErrors (e : gmap string (list string)) (st : state) : state :=
  {| selectedForm := selectedForm st; formValues := formValues st;
     fieldErrors := e; dynamicOptions := dynamicOptions st;
     submitting := submitting st; localStorage := localStorage st;
     calls := calls st; awaiting := awaiting st; messages := messages st;
     location := location st;
     selectedIsCopy := selectedIsCopy st |}.

(** [setDynamicOptions(f)] with an updater function. *)
Definition setDynamicOptions
    (f : gmap string (list string) → gmap string (list string))
    (st : state) : state :=
  {| selectedForm := selectedForm st; formValues := formValues st;
     fieldErrors := fieldErrors st; dynamicOptions := f (dynamicOptions st);
     submitting := submitting st; localStorage := localStorage st;
     calls := calls st; awaiting := awaiting st; messages := messages st;
     location := location st;
     selectedIsCopy := selectedIsCopy st |}.

Definition setSubmitting (b : bool) (st : state) : state :=
  {| selectedForm := selectedForm st; formValues := formValues st;
     fieldErrors := fieldErrors st; dynamicOptions := dynamicOptions st;
     submitting := b; localStorage := localStorage st;
     calls := calls st; awaiting := awaiting st; messages := messages st;
     location := location st;
     selectedIsCopy := selectedIsCopy st |}.

Definition setLocalStorage (ls : gmap string string) (st : state) : state :=
  {| selectedForm := selectedForm st; formValues := formValues st;
     fieldErrors := fieldErrors st; dynamicOptions := dynamicOptions st;
     submitting := submitting st; localStorage := ls;
     calls := calls st; awaiting := awaiting st; messages := messages st;
     location := location st;
     selectedIsCopy := selectedIsCopy st |}.

(** Sends a request; the result is its position in [calls]. *)
Definition send (c : Call) (st : state) : state * nat :=
  ({| selectedForm := selectedForm st; formValues := formValues st;
      fieldErrors := fieldErrors st; dynamicOptions := dynamicOptions st;
      submitting := submitting st; localStorage := localStorage st;
      calls := calls st ++ [c]; awaiting := awaiting st;
      messages := messages st; location := location st;
     selectedIsCopy := selectedIsCopy st |},
   length (calls st)).

Definition setAwaiting (a : gmap nat Awaiting) (st : state) : state :=
  {| selectedForm := selectedForm st; formValues := formValues st;
     fieldErrors := fieldErrors st; dynamicOptions := dynamicOptions st;
     submitting := submitting st; localStorage := localStorage st;
     calls := calls st; awaiting := a; messages := messages st;
     location := location st;
     selectedIsCopy := selectedIsCopy st |}.

Definition notify (m : Message) (st : state) : state :=
  {| selectedForm := selectedForm st; formValues := formValues st;
     fieldErrors := fieldErrors st; dynamicOptions := dynamicOptions st;
     submitting := submitting st; localStorage := localStorage st;
     calls := calls st; awaiting := awaiting st;
     messages := messages st ++ [m]; location := location st;
     selectedIsCopy := selectedIsCopy st |}.

Definition navigate (to : string) (st : state) : state :=
  {| selectedForm := selectedForm st; formValues := formValues st;
     fieldErrors := fieldErrors st; dynamicOptions := dynamicOptions st;
     submitting := submitting st; localStorage := localStorage st;
     calls := calls st; awaiting := awaiting st; messages := messages st;
     location := to; selectedIsCopy := selectedIsCopy st |}.

(** The page as it is first shown at the route /form. *)
Definition initial : state :=
  {| selectedForm := None; formValues := ∅; fieldErrors := ∅;
     dynamicOptions := ∅; submitting := false; localStorage := ∅;
     calls := []; awaiting := ∅; messages := []; location := "/form";
     selectedIsCopy := false |}.

(** ** JSON text

    [JSON.stringify] and [JSON.parse] on the values a draft holds: an object
    whose members are scalars or arrays of scalars.  A text is a list of
    characters.  [JSON.stringify] writes no white space, and the reader below
    is [JSON.parse] on such texts: it knows every escape of the JSON grammar,
    and yields [None] where [JSON.parse] throws a [SyntaxError] (and for a
    [\u] escape above 00ff, which a one-byte character cannot hold). *)

Module Json.

Local Open Scope char_scope.
Local Open Scope nat_scope.

Abbreviation text := (list ascii).

Definition dquote : ascii := Eval cbv in ascii_of_nat 34.

Definition hex_digit (n : nat) : ascii :=
  match n with
  | 0 => "0" | 1 => "1" | 2 => "2" | 3 => "3" | 4 => "4" | 5 => "5"
  | 6 => "6" | 7 => "7" | 8 => "8" | 9 => "9" | 10 => "a" | 11 => "b"
  | 12 => "c" | 13 => "d" | 14 => "e" | _ => "f"
  end.

Definition hex_value (c : ascii) : option nat :=
  let n := nat_of_ascii c in
  if (48 <=? n) && (n <=? 57) then Some (n - 48)
  else if (97 <=? n) && (n <=? 102) then Some (n - 87)
  else if (65 <=? n) && (n <=? 70) then Some (n - 55)
  else None.

(** *** Writing *)

(** One character of a string, as [JSON.stringify] quotes it. *)
Definition escape_char (c : ascii) : text :=
  let n := nat_of_ascii c in
  if Ascii.eqb c dquote then ["\"; dquote]
  else if Ascii.eqb c "\" then ["\"; "\"]
  else if n =? 8 then ["\"; "b"]
  else if n =? 9 then ["\"; "t"]
  else if n =? 10 then ["\"; "n"]
  else if n =? 12 then ["\"; "f"]
  else if n =? 13 then ["\"; "r"]
  else if n <? 32 then
    ["\"; "u"; "0"; "0"; hex_digit (n / 16); hex_digit (n mod 16)]
  else [c].

Definition print_string (s : string) : text :=
  dquote :: flat_map escape_char (list_ascii_of_string s) ++ [dquote].

Fixpoint print_uint (u : uint) : text :=
  match u with
  | Nil => []
  | D0 u => "0" :: print_uint u
  | D1 u => "1" :: print_uint u
  | D2 u => "2" :: print_uint u
  | D3 u => "3" :: print_uint u
  | D4 u => "4" :: print_uint u
  | D5 u => "5" :: print_uint u
  | D6 u => "6" :: print_uint u
  | D7 u => "7" :: print_uint u
  | D8 u => "8" :: print_uint u
  | D9 u => "9" :: print_uint u
  end.

Definition print_number (n : Z) : text :=
  match Z.to_int n with
  | Pos u => print_uint u
  | Neg u => "-" :: print_uint u
  end.

Definition print_scalar (v : scalar) : text :=
  match v with
  | SNull => ["n"; "u"; "l"; "l"]
  | SBool true => ["t"; "r"; "u"; "e"]
  | SBool false => ["f"; "a"; "l"; "s"; "e"]
  | SNum n => print_number n
  | SStr s => print_string s
  end.

(** The elements of a non-empty array, separated by commas. *)
Fixpoint print_elems (v : scalar) (l : list scalar) : text :=
  match l with
  | [] => print_scalar v
  | w :: l' => print_scalar v ++ "," :: print_elems w l'
  end.

Definition print_value (v : value) : text :=
  match v with
  | VScalar s => print_scalar s
  | VArray [] => ["["; "]"]
  | VArray (x :: l) => "[" :: print_elems x l ++ ["]"]
  end.

Definition print_member (m : string * value) : text :=
  print_string m.1 ++ ":" :: print_value m.2.

Fixpoint print_members (m : string * value) (l : list (string * value)) : text :=
  match l with
  | [] => print_member m
  | m' :: l' => print_member m ++ "," :: print_members m' l'
  end.

Definition print_object (l : list (string * value)) : text :=
  match l with
  | [] => ["{"; "}"]
  | m :: l' => "{" :: print_members m l' ++ ["}"]
  end.

(** [JSON.stringify(values)] *)
Definition stringify (values : AnswerSet) : string :=
  string_of_list_ascii (print_object (map_to_list values)).

(** *** Reading *)

(** The character an escape letter stands for. *)
Definition unescape (e : ascii) : option ascii :=
  if Ascii.eqb e dquote then Some dquote
  else if Ascii.eqb e "\" then Some "\"
  else if Ascii.eqb e "/" then Some "/"
  else if Ascii.eqb e "b" then Some (ascii_of_nat 8)
  else if Ascii.eqb e "t" then Some (ascii_of_nat 9)
  else if Ascii.eqb e "n" then Some (ascii_of_nat 10)
  else if Ascii.eqb e "f" then Some (ascii_of_nat 12)
  else if Ascii.eqb e "r" then Some (ascii_of_nat 13)
  else None.

Definition unicode (a b c d : ascii) : option ascii :=
  match hex_value a, hex_value b, hex_value c, hex_value d with
  | Some 0, Some 0, Some h, Some l => Some (ascii_of_nat (16 * h + l))
  | _, _, _, _ => None
  end.

(** The characters of a string after its opening quote, up to the closing
    quote, and the text that follows it. *)
Fixpoint parse_string_body (s : text) : option (text * text) :=
  match s with
  | [] => None
  | c :: s' =>
      if Ascii.eqb c dquote then Some ([], s')
      else if Ascii.eqb c "\" then
        match s' with
        | [] => None
        | e :: s'' =>
            if Ascii.eqb e "u" then
              match s'' with
              | a :: b :: c :: d :: r =>
                  match unicode a b c d, parse_string_body r with
                  | Some ch, Some (body, rest) => Some (ch :: body, rest)
                  | _, _ => None
                  end
              | _ => None
              end
            else
              match unescape e, parse_string_body s'' with
              | Some ch, Some (body, rest) => Some (ch :: body, rest)
              | _, _ => None
              end
        end
      else if nat_of_ascii c <? 32 then None
      else
        match parse_string_body s' with
        | Some (body, rest) => Some (c :: body, rest)
        | None => None
        end
  end.

Definition parse_string (s : text) : option (string * text) :=
  match s with
  | c :: s' =>
      if Ascii.eqb c dquote then
        match parse_string_body s' with
        | Some (body, rest) => Some (string_of_list_ascii body, rest)
        | None => None
        end
      else None
  | [] => None
  end.

Definition digit (c : ascii) : option (uint → uint) :=
  if Ascii.eqb c "0" then Some D0
  else if Ascii.eqb c "1" then Some D1
  else if Ascii.eqb c "2" then Some D2
  else if Ascii.eqb c "3" then Some D3
  else if Ascii.eqb c "4" then Some D4
  else if Ascii.eqb c "5" then Some D5
  else if Ascii.eqb c "6" then Some D6
  else if Ascii.eqb c "7" then Some D7
  else if Ascii.eqb c "8" then Some D8
  else if Ascii.eqb c "9" then Some D9
  else None.

(** The longest run of digits at the head of a text. *)
Fixpoint read_uint (s : text) : uint * text :=
  match s with
  | [] => (Nil, [])
  | c :: s' =>
      match digit c with
      | Some d => let (u, rest) := read_uint s' in (d u, rest)
      | None => (Nil, s)
      end
  end.

Definition parse_number (s : text) : option (Z * text) :=
  match s with
  | "-" :: s' =>
      match read_uint s' with
      | (Nil, _) => None
      | (u, rest) => Some (Z.of_int (Neg u), rest)
      end
  | _ =>
      match read_uint s with
      | (Nil, _) => None
      | (u, rest) => Some (Z.of_int (Pos u), rest)
      end
  end.

Definition parse_scalar (s : text) : option (scalar * text) :=
  match s with
  | "n" :: "u" :: "l" :: "l" :: rest => Some (SNull, rest)
  | "t" :: "r" :: "u" :: "e" :: rest => Some (SBool true, rest)
  | "f" :: "a" :: "l" :: "s" :: "e" :: rest => Some (SBool false, rest)
  | c :: _ =>
      if Ascii.eqb c dquote then
        match parse_string s with
        | Some (str, rest) => Some (SStr str, rest)
        | None => None
        end
      else
        match parse_number s with
        | Some (n, rest) => Some (SNum n, rest)
        | None => None
        end
  | [] => None
  end.

(** The elements of a non-empty array and its closing bracket. *)
Fixpoint parse_elems (fuel : nat) (s : text) : option (list scalar * text) :=
  match fuel with
  | 0 => None
  | S fuel' =>
      match parse_scalar s with
      | Some (v, "," :: rest) =>
          match parse_elems fuel' rest with
          | Some (vs, rest') => Some (v :: vs, rest')
          | None => None
          end
      | Some (v, "]" :: rest) => Some ([v], rest)
      | _ => None
      end
  end.

Definition parse_value (fuel : nat) (s : text) : option (value * text) :=
  match s with
  | "[" :: "]" :: rest => Some (VArray [], rest)
  | "[" :: s' =>
      match parse_elems fuel s' with
      | Some (vs, rest) => Some (VArray vs, rest)
      | None => None
      end
  | _ =>
      match parse_scalar s with
      | Some (v, rest) => Some (VScalar v, rest)
      | None => None
      end
  end.

(** The members of a non-empty object and its closing brace. *)
Fixpoint parse_members (fuel : nat) (s : text)
    : option (list (string * value) * text) :=
  match fuel with
  | 0 => None
  | S fuel' =>
      match parse_string s with
      | Some (k, ":" :: s') =>
          match parse_value fuel' s' with
          | Some (v, "," :: rest) =>
              match parse_members fuel' rest with
              | Some (ms, rest') => Some ((k, v) :: ms, rest')
              | None => None
              end
          | Some (v, "}" :: rest) => Some ([(k, v)], rest)
          | _ => None
          end
      | _ => None
      end
  end.

Definition parse_object (s : text) : option (list (string * value)) :=
  match s with
  | "{" :: "}" :: [] => Some []
  | "{" :: s' =>
      match parse_members (length s') s' with
      | Some (ms, []) => Some ms
      | _ => None
      end
  | _ => None
  end.

(** [JSON.parse(text)], [None] when it throws.  A member written twice
    keeps its last value. *)
Definition parse (s : string) : option AnswerSet :=
  match parse_object (list_ascii_of_string s) with
  | Some ms => Some (list_to_map (reverse ms))
  | None => None
  end.

End Json.

(** ** localStorage and the draft of a form *)

Definition draft_key (formId : string) : string := "draft_" +:+ formId.

(** [localStorage.setItem(`draft_${formId}`, JSON.stringify(values))] *)
Definition save (formId : string) (values : AnswerSet)
    (ls : gmap string string) : gmap string string :=
  <[draft_key formId := Json.stringify values]> ls.

(** [localStorage.getItem(`draft_${formId}`)], parsed when it is there and
    not empty: the values the form is given back, or [None] when there is no
    draft or it cannot be parsed. *)
Definition load (formId : string) (ls : gmap string string) : option AnswerSet :=
  match ls !! draft_key formId with
  | Some savedDraft =>
      if String.eqb savedDraft EmptyString then None else Json.parse savedDraft
  | None => None
  end.

(** ** The handlers of DynamicFormPage *)

(** [arrayMove] of @dnd-kit/sortable: a copy of the array in which the item
    at [from] has been taken out ([splice(from, 1)]) and put back at [to]
    ([splice(to, 0, item)], which puts it at the end when [to] is past the
    end).  Its only caller gives it two positions of the array; for a [from]
    that is no position JavaScript would put [undefined] at [to], which a
    list of items cannot hold, and the array is left as it is. *)
Definition arrayMove {A} (array : list A) (from to : nat) : list A :=
  match array !! from with
  | Some x =>
      let newArray := delete from array in
      take to newArray ++ x :: drop to newArray
  | None => array
  end.

(** [array.findIndex(p)]; [None] is [-1]. *)
Fixpoint findIndex {A} (p : A → bool) (array : list A) : option nat :=
  match array with
  | [] => None
  | x :: array' => if p x then Some 0%nat else S <$> findIndex p array'
  end.

Section Page.

Variable t : string → string.

(** The first effect: [localStorage.clear()] when the page is mounted. *)
Definition mount (st : state) : state := setLocalStorage ∅ st.

(** [form.setFieldsValue(values)]: the given members replace those of the
    store, the others stay. *)
Definition setFieldsValue (values : AnswerSet) (st : state) : state :=
  setFormValues (values ∪ formValues st) st.

(** [form.resetFields()] *)
Definition resetFields (st : state) : state :=
  setFormValues ∅ (setFieldErrors ∅ st).

(** [form.setFields([{ name, errors }])] *)
Definition setFields (name : string) (errors : list string) (st : state) : state :=
  setFieldErrors (<[name := errors]> (fieldErrors st)) st.

(** The part of [handleCountryChange] up to its [await]: the new state, and
    the request it waits for, if any. *)
Definition handleCountryChange (val : option value) (st : state)
    : state * option nat :=
  if falsy val then
    (setDynamicOptions (λ prev, <["state" := []]> prev) st, None)
  else
    let (st', i) := send (ApiGet "/getStates" val) st in (st', Some i).

(** The body of the [try] after the [await]: [res.data.states].  A
    rejected request throws at the [await], and reading [states] of a
    missing body throws a [TypeError]. *)
Definition states_of (res : Response) : Thrown + StatesField :=
  match res with
  | Rejected => inl RequestError
  | Resolved NoData => inl TypeError
  | Resolved (Data states) => inr states
  end.

(** The rest of [handleCountryChange], once [api.get] has settled: the
    [try] and its [catch]. *)
Definition handleCountryChange_settled (res : Response) (st : state) : state :=
  match states_of res with
  | inr (StatesArray states) =>
      setDynamicOptions (λ prev, <["state" := states]> prev) st
  | inr (NotArray _) =>
      setDynamicOptions (λ prev, <["state" := []]> prev) st
  | inl _ =>
      setDynamicOptions (λ prev, <["state" := []]> prev) st
  end.

(** The end of [onValuesChange]: the draft is written when a form is
    selected. *)
Definition save_draft (closureForm : option FormStructure)
    (allValues : AnswerSet) (st : state) : state :=
  match closureForm with
  | Some f => setLocalStorage (save (formId f) allValues (localStorage st)) st
  | None => st
  end.

(** [onValuesChange(changed, allValues)]; [changed] lists the members of
    the object in the order of [Object.keys]. *)
Definition onValuesChange (changed : list (string * option value))
    (allValues : AnswerSet) (st : state) : state :=
  match changed with
  | [] => st
  | (changedKey, val) :: _ =>
      if String.eqb changedKey EmptyString then st
      else if String.eqb changedKey "country" then
        match handleCountryChange val st with
        | (st', Some i) =>
            setAwaiting
              (<[i := AwaitStates (selectedForm st) allValues]> (awaiting st')) st'
        | (st', None) => save_draft (selectedForm st) allValues st'
        end
      else save_draft (selectedForm st) allValues st
  end.

(** The simple fields of a form: the top-level ones and the members of the
    groups, in order. *)
Definition allSimpleFields (f : FormStructure) : list SimpleField :=
  flat_map (λ item, match item with
                    | Group g => g_fields g
                    | Simple fld => [fld]
                    end) (fields f).

(** The members every plain object inherits from [Object.prototype]; each
    is a function or an object, so truthy. *)
Definition inherited_members : list string :=
  [ "constructor"; "__defineGetter__"; "__defineSetter__"; "hasOwnProperty";
    "__lookupGetter__"; "__lookupSetter__"; "isPrototypeOf";
    "propertyIsEnumerable"; "toString"; "valueOf"; "__proto__";
    "toLocaleString" ].

(** What [object[key]] finds on a plain object: the member the object holds
    under the key, or else the one it inherits under that name, or nothing. *)
Inductive member : Type :=
| Own (v : value)
| Inherited
| NoMember.

Definition member_of (object : AnswerSet) (key : string) : member :=
  match object !! key with
  | Some v => Own v
  | None => if bool_decide (key ∈ inherited_members) then Inherited else NoMember
  end.

Definition member_truthy (m : member) : bool :=
  match m with
  | Own v => truthy (Some v)
  | Inherited => true
  | NoMember => false
  end.

(** The ids of the required fields that are shown and for which
    [!formValues[fld.id]] holds. *)
Definition missing (f : FormStructure) (formValues : AnswerSet) : list string :=
  map id
    (List.filter
       (λ fld, is_required fld && shouldShowField fld formValues
               && negb (member_truthy (member_of formValues (id fld))))
       (allSimpleFields f)).

(** [submitFormData(data)] of src/services/api.ts, up to its [await]. *)
Definition submitFormData (data : AnswerSet) (st : state) : state * nat :=
  send (ApiPost "/insurance/forms/submit" data) st.

(** [onFinish(values)] up to its [await]. *)
Definition onFinish (values : AnswerSet) (st : state) : state :=
  match selectedForm st with
  | None => st
  | Some f =>
      let missing := missing f (formValues st) in
      if (0 <? length missing)%nat then
        foldl (λ st' mf, setFields mf [t "required"] st') st missing
      else
        let (st', i) := submitFormData values (setSubmitting true st) in
        setAwaiting (<[i := AwaitSubmit]> (awaiting st')) st'
  end.

(** The rest of [onFinish], once the submission has settled. *)
Definition onFinish_settled (res : Response) (st : state) : state :=
  match res with
  | Resolved _ =>
      setSubmitting false
        (navigate "/submissions"
           (notify (MsgSuccess (t "formSubmittedSuccess")) st))
  | Rejected =>
      setSubmitting false (notify (MsgError (t "submissionFailed")) st)
  end.

(** The effect on [selectedForm]: the saved draft of the selected form is
    put back into the form. *)
Definition restore_draft (st : state) : state :=
  match selectedForm st with
  | Some f =>
      match load (formId f) (localStorage st) with
      | Some draft => setFieldsValue draft st
      | None => st
      end
  | None => st
  end.

(** Whether [f] is the object that is selected already.  The fetched forms
    are the objects of the query result, the same from one render to the
    next, so the form found among them is the selected object exactly when
    it equals the selected form and that form is not a copy made by a
    drag. *)
Definition same_object (st : state) (f : option FormStructure) : bool :=
  bool_decide (selectedForm st = f) && negb (selectedIsCopy st).

(** The [onChange] of the form selector.  The effect on [selectedForm] runs
    after it when the selected object has changed; React runs no effect when
    [setSelectedForm] is given the object that is selected already. *)
Definition selectForm (forms : list FormStructure) (val : string)
    (st : state) : state :=
  let f := List.find (λ x, String.eqb (formId x) val) forms in
  let st' := setDynamicOptions (λ _, ∅) (resetFields (setSelectedForm f st)) in
  if same_object st f then st' else restore_draft st'.

(** [handleDragEnd(event)] with [active.id] and [over?.id]; the new
    [selectedForm] object runs the effect on [selectedForm] again. *)
Definition handleDragEnd (active : string) (over : option string)
    (st : state) : state :=
  match over, selectedForm st with
  | Some over, Some f =>
      if String.eqb active over then st
      else
        match findIndex (λ x, String.eqb (item_id x) active) (fields f),
              findIndex (λ x, String.eqb (item_id x) over) (fields f) with
        | Some oldIndex, Some newIndex =>
            let updatedFields := arrayMove (fields f) oldIndex newIndex in
            restore_draft
              (setSelectedCopy
                 {| formId := formId f; title := title f;
                    fields := updatedFields |} st)
        | _, _ => st
        end
  | _, _ => st
  end.

(** A request settles: the handler that waits for it goes on.  A request
    nothing waits for (any more) changes nothing. *)
Definition settle (i : nat) (res : Response) (st : state) : state :=
  match awaiting st !! i with
  | None => st
  | Some k =>
      let st' := setAwaiting (delete i (awaiting st)) st in
      match k with
      | AwaitStates closureForm allValues =>
          save_draft closureForm allValues (handleCountryChange_settled res st')
      | AwaitSubmit => onFinish_settled res st'
      end
  end.

(** What the page renders for the fields of the selected form. *)
Definition render (st : state) : list (option Sortable) :=
  match selectedForm st with
  | Some f => render_fields t (formValues st) (dynamicOptions st) (fields f)
  | None => []
  end.

(** *** Events

    The page is driven by events, one at a time: the user picks a form,
    changes a field (the form library has updated its values and passes
    them on), drops a dragged item, submits, or a request settles. *)
Inductive event : Type :=
| SelectForm (forms : list FormStructure) (val : string)
| ValuesChange (changed : list (string * option value)) (allValues : AnswerSet)
| DragEnd (active : string) (over : option string)
| Finish (values : AnswerSet)
| Settle (i : nat) (res : Response).

Definition step (st : state) (e : event) : state :=
  match e with
  | SelectForm forms val => selectForm forms val st
  | ValuesChange changed allValues =>
      onValuesChange changed allValues (setFormValues allValues st)
  | DragEnd active over => handleDragEnd active over st
  | Finish values => onFinish values st
  | Settle i res => settle i res st
  end.

Definition run (st : state) (es : list event) : state := foldl step st es.

(** The states of the interpreter, read off the page state. *)
Inductive phase : Type :=
| NoFormSelected
| AwaitingInput
| Submitting
| Submitted.

Definition phase_of (st : state) : phase :=
  if String.eqb (location st) "/submissions" then Submitted
  else if submitting st then Submitting
  else match selectedForm st with
       | Some _ => AwaitingInput
       | None => NoFormSelected
       end.

End Page.

(** * Properties *)

(** ** Visibility *)

Lemma strict_eq_string_true (v : option value) (s : string) :
  strict_eq_string v s = true ↔ v = Some (VScalar (SStr s)).
Proof.
  unfold strict_eq_string.
  destruct v as [[[ | b | n | s']| l]|]; try (split; [discriminate | congruence]).
  rewrite String.eqb_eq. split; congruence.
Qed.

Lemma strict_eq_string_false (v : option value) (s : string) :
  strict_eq_string v s = false ↔ v ≠ Some (VScalar (SStr s)).
Proof.
  rewrite <- strict_eq_string_true. destruct (strict_eq_string v s); split; congruence.
Qed.

(** C3. [shouldShowField] shows a field that has no visibility rule; under
    "equals" it shows the field exactly when the answer stored under
    [dependsOn] is the configured string (so not when that answer is absent or
    is not a string); under "not_equals" it shows the field exactly when that
    answer is not the configured string, in particular when it is absent;
    under any other condition it shows the field. *)
Theorem shouldShowField_contract (field : SimpleField) (values : AnswerSet) :
  (visibility field = None → shouldShowField field values = true)
  ∧ (∀ vis, visibility field = Some vis → condition vis = "equals" →
       (shouldShowField field values = true
        ↔ values !! dependsOn vis = Some (VScalar (SStr (vis_value vis))))
       ∧ (values !! dependsOn vis = None → shouldShowField field values = false)
       ∧ (∀ v, values !! dependsOn vis = Some v → (∀ s, v ≠ VScalar (SStr s)) →
            shouldShowField field values = false))
  ∧ (∀ vis, visibility field = Some vis → condition vis = "not_equals" →
       (shouldShowField field values = true
        ↔ values !! dependsOn vis ≠ Some (VScalar (SStr (vis_value vis))))
       ∧ (values !! dependsOn vis = None → shouldShowField field values = true))
  ∧ (∀ vis, visibility field = Some vis →
       condition vis ≠ "equals" → condition vis ≠ "not_equals" →
       shouldShowField field values = true).
Proof.
  unfold shouldShowField. split; [by intros -> |].
  split; [| split].
  - intros vis -> ->. simpl. split; [apply strict_eq_string_true |]. split.
    + intros ->. reflexivity.
    + intros v Hv Hs. apply strict_eq_string_false.
      rewrite Hv. intros [= ->]. by eapply Hs.
  - intros vis -> ->. simpl. rewrite negb_true_iff. split.
    + apply strict_eq_string_false.
    + intros ->. reflexivity.
  - intros vis -> Hne Hnn.
    apply String.eqb_neq in Hne, Hnn. by rewrite Hne, Hnn.
Qed.

(** The form of the end-to-end scenario, with a group and a field of a kind
    the renderer does not know. *)
Module Sample.

Definition plain (i l ty : string) : SimpleField :=
  {| id := i; label := l; type := ty; required := None; options := None;
     dynamicOptions_of := None; visibility := None; validation := None |}.

Definition country : SimpleField :=
  {| id := "country"; label := "Country"; type := "select";
     required := Some true; options := Some ["US"; "CA"];
     dynamicOptions_of := None; visibility := None; validation := None |}.

Definition state : SimpleField :=
  {| id := "state"; label := "State"; type := "select";
     required := None; options := None;
     dynamicOptions_of :=
       Some {| do_dependsOn := "country"; do_endpoint := "/getStates";
               do_method := "GET" |};
     visibility := None; validation := None |}.

Definition smoker : SimpleField :=
  {| id := "smoker"; label := "Smoker"; type := "radio";
     required := Some true; options := Some ["Yes"; "No"];
     dynamicOptions_of := None; visibility := None; validation := None |}.

Definition when_smoker (cond : string) : Visibility :=
  {| dependsOn := "smoker"; condition := cond; vis_value := "Yes" |}.

Definition discount : SimpleField :=
  {| id := "discount"; label := "Discount code"; type := "text";
     required := Some true; options := None; dynamicOptions_of := None;
     visibility := Some (when_smoker "equals"); validation := None |}.

Definition gym : SimpleField :=
  {| id := "gym"; label := "Gym member"; type := "checkbox";
     required := Some true; options := Some ["Pool"; "Weights"];
     dynamicOptions_of := None;
     visibility := Some (when_smoker "not_equals"); validation := None |}.

Definition lucky : SimpleField :=
  {| id := "lucky"; label := "Lucky number"; type := "number";
     required := Some true; options := None; dynamicOptions_of := None;
     visibility := Some (when_smoker "unless"); validation := None |}.

Definition slider : SimpleField := plain "risk" "Risk appetite" "slider".

Definition habits : GroupField :=
  {| g_id := "habits"; g_label := "Habits"; g_fields := [discount; gym] |}.

Definition health : FormStructure :=
  {| formId := "health_v1"; title := "Health";
     fields := [Simple country; Simple state; Simple smoker; Group habits;
                Simple slider] |}.

Definition yes : value := VScalar (SStr "Yes").
Definition no : value := VScalar (SStr "No").

(** No translation: every key stands for itself. *)
Definition t (key : string) : string := key.

End Sample.

Lemma shouldShowField_contract_witness :
  shouldShowField Sample.country ∅ = true
  ∧ (shouldShowField Sample.discount {["smoker" := Sample.yes]} = true
     ↔ ({["smoker" := Sample.yes]} : AnswerSet) !! "smoker" = Some Sample.yes)
  ∧ shouldShowField Sample.discount ∅ = false
  ∧ shouldShowField Sample.discount {["smoker" := VScalar (SBool true)]} = false
  ∧ shouldShowField Sample.gym ∅ = true
  ∧ shouldShowField Sample.lucky {["smoker" := Sample.no]} = true.
Proof.
  split; [| split; [| split; [| split; [| split]]]].
  - destruct (shouldShowField_contract Sample.country ∅) as (Hnone & _).
    apply Hnone. reflexivity.
  - destruct (shouldShowField_contract Sample.discount
                {["smoker" := Sample.yes]}) as (_ & Heq & _).
    destruct (Heq (Sample.when_smoker "equals") eq_refl eq_refl) as (Hiff & _).
    exact Hiff.
  - destruct (shouldShowField_contract Sample.discount ∅) as (_ & Heq & _).
    destruct (Heq (Sample.when_smoker "equals") eq_refl eq_refl)
      as (_ & Habsent & _).
    apply Habsent. reflexivity.
  - destruct (shouldShowField_contract Sample.discount
                {["smoker" := VScalar (SBool true)]}) as (_ & Heq & _).
    destruct (Heq (Sample.when_smoker "equals") eq_refl eq_refl)
      as (_ & _ & Hother).
    apply (Hother (VScalar (SBool true))); [reflexivity | discriminate].
  - destruct (shouldShowField_contract Sample.gym ∅) as (_ & _ & Hne & _).
    destruct (Hne (Sample.when_smoker "not_equals") eq_refl eq_refl)
      as (_ & Habsent).
    apply Habsent. reflexivity.
  - destruct (shouldShowField_contract Sample.lucky
                {["smoker" := Sample.no]}) as (_ & _ & _ & Hunknown).
    apply (Hunknown (Sample.when_smoker "unless"));
      [reflexivity | discriminate | discriminate].
Defined.

(** ** Rendering *)

Lemma filter_nil_iff {A} (p : A → bool) (l : list A) :
  List.filter p l = [] ↔ ∀ x, x ∈ l → p x = false.
Proof.
  induction l as [| a l IH]; simpl.
  - split; [intros _ x Hx; by apply elem_of_nil in Hx | done].
  - destruct (p a) eqn:Hpa.
    + split; [discriminate |]. intros H. specialize (H a (list_elem_of_here _ _)).
      congruence.
    + rewrite IH. split.
      * intros H x [-> | Hx]%elem_of_cons; auto.
      * intros H x Hx. apply H. by apply list_elem_of_further.
Qed.

Lemma elem_of_List_filter {A} (p : A → bool) (l : list A) (x : A) :
  x ∈ List.filter p l ↔ x ∈ l ∧ p x = true.
Proof. rewrite !list_elem_of_In. apply filter_In. Qed.

(** A group is rendered exactly when one of its members is visible under
    the current answers; with no visible member it yields nothing at all; a
    rendered group holds, in order, one field-renderer element for each of
    its visible members and none for the others. *)
Lemma group_rendering (t : string → string) (g : GroupField)
    (values : AnswerSet) (options : gmap string (list string)) :
  let visible := List.filter (λ f, shouldShowField f values) (g_fields g) in
  (is_Some (render_item t values options (Group g))
   ↔ ∃ f, f ∈ g_fields g ∧ shouldShowField f values = true)
  ∧ ((∀ f, f ∈ g_fields g → shouldShowField f values = false) →
     render_item t values options (Group g) = None)
  ∧ (∀ r, render_item t values options (Group g) = Some r →
       r = SGroup (g_id g) (g_label g)
             (map (λ f, (id f, FieldRenderer t f values options)) visible))
  ∧ (∀ f, f ∈ visible ↔ f ∈ g_fields g ∧ shouldShowField f values = true).
Proof.
  intros visible.
  assert (Hmem : ∀ f, f ∈ visible ↔ f ∈ g_fields g ∧ shouldShowField f values = true).
  { intros f. apply (elem_of_List_filter (λ f, shouldShowField f values)). }
  unfold render_item. fold visible.
  split; [| split; [| split]]; [| | | exact Hmem].
  - destruct visible as [| f0 visible'] eqn:Hvis; simpl.
    + split; [by intros [? [=]] |]. intros (f & Hf).
      apply Hmem in Hf. by apply elem_of_nil in Hf.
    + split; [| by eauto]. intros _. exists f0.
      apply Hmem, list_elem_of_here.
  - intros Hnone.
    apply (filter_nil_iff (λ f, shouldShowField f values)) in Hnone.
    fold visible in Hnone. by rewrite Hnone.
  - intros r. destruct visible; simpl; [discriminate | by intros [= <-]].
Qed.

Lemma group_rendering_witness :
  render_item Sample.t {["smoker" := Sample.yes]} ∅ (Group Sample.habits)
  = Some (SGroup "habits" "Habits"
            [("discount",
              FieldRenderer Sample.t Sample.discount {["smoker" := Sample.yes]} ∅)])
  ∧ render_item Sample.t {["smoker" := Sample.yes]} ∅
      (Group {| g_id := "gym_only"; g_label := "Gym"; g_fields := [Sample.gym] |})
    = None.
Proof.
  split.
  - destruct (group_rendering Sample.t Sample.habits
                {["smoker" := Sample.yes]} ∅) as (Hsome & _ & Hshape & _).
    destruct (proj2 Hsome) as [r Hr].
    + exists Sample.discount. split; [| reflexivity].
      apply list_elem_of_here.
    + rewrite Hr. f_equal. apply (Hshape r Hr).
  - destruct (group_rendering Sample.t
                {| g_id := "gym_only"; g_label := "Gym"; g_fields := [Sample.gym] |}
                {["smoker" := Sample.yes]} ∅) as (_ & Hnone & _).
    apply Hnone. intros f Hf. apply list_elem_of_singleton in Hf. by subst f.
Defined.

(** The kinds [FieldRenderer] has a case for. *)
Definition known_types : list string :=
  ["text"; "number"; "date"; "select"; "radio"; "checkbox"].

Lemma render_fields_app (t : string → string) (values : AnswerSet)
    (options : gmap string (list string)) (before after : list FieldItem) :
  render_fields t values options (before ++ after)
  = render_fields t values options before ++ render_fields t values options after.
Proof. unfold render_fields. apply map_app. Qed.

(** C9. For a field of a kind that is none of text, number, date, select,
    radio and checkbox, and whose id is neither country nor state, the field
    renderer yields nothing; the items before and after it in the form are
    rendered as they are without it, and inside a group the other visible
    members are rendered as they are without it. *)
Theorem unrecognized_kind_renders_nothing (t : string → string)
    (field : SimpleField) (values : AnswerSet)
    (options : gmap string (list string)) :
  type field ∉ known_types →
  id field ≠ "country" →
  id field ≠ "state" →
  FieldRenderer t field values options = None
  ∧ (∀ before after,
       render_fields t values options (before ++ Simple field :: after)
       = render_fields t values options before
         ++ (if shouldShowField field values
             then Some (SField (id field) None) else None)
         :: render_fields t values options after)
  ∧ (∀ i l before after,
       shouldShowField field values = true →
       ∃ shown_before shown_after,
         render_item t values options
           (Group {| g_id := i; g_label := l;
                     g_fields := before ++ field :: after |})
         = Some (SGroup i l (shown_before ++ (id field, None) :: shown_after))
         ∧ (∀ r, render_item t values options
                   (Group {| g_id := i; g_label := l; g_fields := before |})
                 = Some r → r = SGroup i l shown_before)
         ∧ (∀ r, render_item t values options
                   (Group {| g_id := i; g_label := l; g_fields := after |})
                 = Some r → r = SGroup i l shown_after)).
Proof.
  intros Htype Hcountry Hstate.
  assert (Hnone : FieldRenderer t field values options = None).
  { unfold FieldRenderer.
    apply String.eqb_neq in Hcountry, Hstate. rewrite Hcountry, Hstate.
    unfold known_types in Htype.
    repeat (rewrite not_elem_of_cons in Htype;
            destruct Htype as [Hne Htype];
            apply String.eqb_neq in Hne; rewrite Hne; clear Hne).
    reflexivity. }
  split; [exact Hnone |]. split.
  - intros before after. rewrite render_fields_app. f_equal. simpl.
    f_equal. unfold render_item. rewrite Hnone.
    by destruct (shouldShowField field values).
  - intros i l before after Hshow.
    exists (map (λ f, (id f, FieldRenderer t f values options))
              (List.filter (λ f, shouldShowField f values) before)),
           (map (λ f, (id f, FieldRenderer t f values options))
              (List.filter (λ f, shouldShowField f values) after)).
    unfold render_item. simpl. split; [| split].
    + rewrite List.filter_app. simpl. rewrite Hshow.
      rewrite length_app. simpl.
      replace (_ =? 0)%nat with false by (symmetry; apply Nat.eqb_neq; lia).
      rewrite map_app. simpl. by rewrite Hnone.
    + intros r. destruct (_ =? 0)%nat; [discriminate | by intros [= <-]].
    + intros r. destruct (_ =? 0)%nat; [discriminate | by intros [= <-]].
Qed.

Lemma unrecognized_kind_renders_nothing_witness :
  FieldRenderer Sample.t Sample.slider ∅ ∅ = None
  ∧ render Sample.t (setSelectedForm (Some Sample.health) initial)
    = [ Some (SField "country" (FieldRenderer Sample.t Sample.country ∅ ∅));
        Some (SField "state" None);
        Some (SField "smoker" (FieldRenderer Sample.t Sample.smoker ∅ ∅));
        Some (SGroup "habits" "Habits"
                [("gym", FieldRenderer Sample.t Sample.gym ∅ ∅)]);
        Some (SField "risk" None) ].
Proof.
  assert (Hslider : type Sample.slider ∉ known_types).
  { intros Hin.
    repeat (apply elem_of_cons in Hin as [Hin | Hin]; [discriminate |]).
    by apply elem_of_nil in Hin. }
  destruct (unrecognized_kind_renders_nothing Sample.t Sample.slider ∅ ∅ Hslider)
    as (Hnone & Hrest & _); [discriminate | discriminate |].
  split; [exact Hnone |].
  exact (Hrest [Simple Sample.country; Simple Sample.state; Simple Sample.smoker;
                Group Sample.habits] []).
Defined.

(** ** Submission *)

Section Submission.

Variable t : string → string.

(** The errors of the form after [form.setFields] has run for every id of
    a list. *)
Definition mark_all (errors : list string) (ids : list string)
    (marked : gmap string (list string)) : gmap string (list string) :=
  foldl (λ m mf, <[mf := errors]> m) marked ids.

Lemma mark_all_lookup errors ids marked k :
  mark_all errors ids marked !! k
  = if decide (k ∈ ids) then Some errors else marked !! k.
Proof.
  unfold mark_all. revert marked.
  induction ids as [| mf ids IH]; intros marked; cbn [foldl].
  - rewrite decide_False; [done | apply not_elem_of_nil].
  - rewrite IH. destruct (decide (k ∈ ids)) as [Hin | Hnin].
    + rewrite decide_True; [done | by apply list_elem_of_further].
    + destruct (decide (k = mf)) as [-> | Hne].
      * rewrite decide_True by apply list_elem_of_here.
        apply lookup_insert_eq.
      * rewrite decide_False.
        -- by apply lookup_insert_ne.
        -- intros [? | ?]%elem_of_cons; congruence.
Qed.

Lemma foldl_setFields errors ids st :
  foldl (λ st' mf, setFields mf errors st') st ids
  = setFieldErrors (mark_all errors ids (fieldErrors st)) st.
Proof.
  unfold mark_all. revert st.
  induction ids as [| mf ids IH]; intros st; simpl.
  - by destruct st.
  - by rewrite IH.
Qed.

Lemma member_of_own (values : AnswerSet) (k : string) (v : value) :
  values !! k = Some v → member_of values k = Own v.
Proof. unfold member_of. by intros ->. Qed.

Lemma member_truthy_own (values : AnswerSet) (k : string) :
  truthy (values !! k) = true → member_truthy (member_of values k) = true.
Proof.
  destruct (values !! k) as [v |] eqn:Hk; [| done].
  by rewrite (member_of_own values k v Hk).
Qed.

Lemma elem_of_missing f values k :
  k ∈ missing f values
  ↔ ∃ fld, fld ∈ allSimpleFields f ∧ id fld = k ∧ is_required fld = true
           ∧ shouldShowField fld values = true
           ∧ member_truthy (member_of values (id fld)) = false.
Proof.
  unfold missing. rewrite list_elem_of_fmap. split.
  - intros (fld & -> & Hin). exists fld.
    apply elem_of_List_filter in Hin as [Hin Hp].
    apply andb_true_iff in Hp as [Hp Hfalsy].
    apply andb_true_iff in Hp as [Hreq Hshow].
    by apply negb_true_iff in Hfalsy.
  - intros (fld & Hin & <- & Hreq & Hshow & Hfalsy). exists fld.
    split; [done |]. apply elem_of_List_filter. split; [done |].
    by rewrite Hreq, Hshow, Hfalsy.
Qed.

(** When the test of the code fails for a required, visible field,
    [onFinish] only marks the missing fields. *)
Lemma onFinish_blocked f values st :
  selectedForm st = Some f →
  missing f (formValues st) ≠ [] →
  onFinish t values st
  = setFieldErrors
      (mark_all [t "required"] (missing f (formValues st)) (fieldErrors st)) st.
Proof.
  intros Hf Hmissing. unfold onFinish. rewrite Hf.
  destruct (missing f (formValues st)) as [| mf ms] eqn:Hm; [done |].
  simpl length. replace (0 <? S (length ms))%nat with true by done.
  apply foldl_setFields.
Qed.

(** When no required, visible field holds a falsy value, [onFinish] sends
    the values it was given. *)
Lemma onFinish_submits f values st :
  selectedForm st = Some f →
  missing f (formValues st) = [] →
  onFinish t values st
  = setAwaiting (<[length (calls st) := AwaitSubmit]> (awaiting st))
      (submitFormData values (setSubmitting true st)).1.
Proof.
  intros Hf Hmissing. unfold onFinish. by rewrite Hf, Hmissing.
Qed.

(** A submit attempt made while [!formValues[fld.id]] holds for some
    required and visible field (among the top-level simple fields and the
    members of the groups) sends no request, marks every such field with the
    validation error and leaves every other part of the page state, so also
    the phase of the interpreter, as it was. *)
Lemma submit_blocking (f : FormStructure) (values : AnswerSet) (st : state) :
  selectedForm st = Some f →
  (∃ fld, fld ∈ allSimpleFields f ∧ is_required fld = true
          ∧ shouldShowField fld (formValues st) = true
          ∧ member_truthy (member_of (formValues st) (id fld)) = false) →
  let st' := onFinish t values st in
  calls st' = calls st
  ∧ awaiting st' = awaiting st
  ∧ (∀ fld, fld ∈ allSimpleFields f → is_required fld = true →
       shouldShowField fld (formValues st) = true →
       member_truthy (member_of (formValues st) (id fld)) = false →
       fieldErrors st' !! id fld = Some [t "required"])
  ∧ (∀ k, k ∉ missing f (formValues st) →
       fieldErrors st' !! k = fieldErrors st !! k)
  ∧ phase_of st' = phase_of st
  ∧ st' = setFieldErrors (fieldErrors st') st.
Proof.
  intros Hf (fld0 & Hin0 & Hreq0 & Hshow0 & Hfalsy0) st'.
  assert (Hne : missing f (formValues st) ≠ []).
  { intros Hnil.
    assert (Hk : id fld0 ∈ missing f (formValues st))
      by (apply elem_of_missing; eauto 10).
    rewrite Hnil in Hk. by apply elem_of_nil in Hk. }
  subst st'. rewrite (onFinish_blocked f values st Hf Hne).
  repeat split; try done.
  - intros fld Hin Hreq Hshow Hfalsy. simpl. rewrite mark_all_lookup.
    rewrite decide_True; [done |]. apply elem_of_missing. eauto 10.
  - intros k Hk. simpl. rewrite mark_all_lookup. by rewrite decide_False.
Qed.

Lemma falsy_truthy v : falsy v = true ↔ truthy v = false.
Proof. unfold falsy. apply negb_true_iff. Qed.

Lemma missing_nil f values :
  (∀ fld, fld ∈ allSimpleFields f → is_required fld = true →
     shouldShowField fld values = true → truthy (values !! id fld) = true) →
  missing f values = [].
Proof.
  intros Hall. apply elem_of_nil_inv. intros k Hk.
  apply elem_of_missing in Hk as (fld & Hin & _ & Hreq & Hshow & Hfalsy).
  specialize (Hall fld Hin Hreq Hshow). apply member_truthy_own in Hall.
  congruence.
Qed.

Lemma settle_submit i res st :
  awaiting st !! i = Some AwaitSubmit →
  settle t i res st
  = onFinish_settled t res (setAwaiting (delete i (awaiting st)) st).
Proof. intros Hi. unfold settle. by rewrite Hi. Qed.

(** A submit attempt made while every required and visible field holds a
    value the code counts as present sets the page to submitting and sends
    exactly one request, whose payload is the values handed to [onFinish],
    whatever they are; when the request succeeds the page goes to the list
    of submissions with a success message, when it fails the page is back
    to awaiting input with a failure message, the answers and the drafts
    untouched. *)
Lemma full_payload_submission (f : FormStructure) (values : AnswerSet)
    (st : state) :
  selectedForm st = Some f →
  (∀ fld, fld ∈ allSimpleFields f → is_required fld = true →
     shouldShowField fld (formValues st) = true →
     truthy (formValues st !! id fld) = true) →
  let i := length (calls st) in
  let st1 := onFinish t values st in
  (submitting st1 = true
   ∧ calls st1 = calls st ++ [ApiPost "/insurance/forms/submit" values]
   ∧ awaiting st1 !! i = Some AwaitSubmit
   ∧ (phase_of st = AwaitingInput → phase_of st1 = Submitting))
  ∧ (∀ body,
       let st2 := settle t i (Resolved body) st1 in
       phase_of st2 = Submitted
       ∧ calls st2 = calls st1
       ∧ messages st2 = messages st ++ [MsgSuccess (t "formSubmittedSuccess")])
  ∧ (let st2 := settle t i Rejected st1 in
     (phase_of st = AwaitingInput → phase_of st2 = AwaitingInput)
     ∧ calls st2 = calls st1
     ∧ messages st2 = messages st ++ [MsgError (t "submissionFailed")]
     ∧ formValues st2 = formValues st
     ∧ localStorage st2 = localStorage st).
Proof.
  intros Hf Hall i st1.
  assert (Hst1 : st1 = setAwaiting (<[i := AwaitSubmit]> (awaiting st))
                         (submitFormData values (setSubmitting true st)).1).
  { subst st1 i. apply (onFinish_submits f); [done | by apply missing_nil]. }
  assert (Hi : awaiting st1 !! i = Some AwaitSubmit).
  { rewrite Hst1. simpl. apply lookup_insert_eq. }
  split; [| split].
  - rewrite Hst1 at 1 2 4. simpl. repeat split; try done.
    unfold phase_of. simpl. destruct (String.eqb (location st) "/submissions");
      [discriminate | done].
  - intros body st2. subst st2. rewrite (settle_submit i _ st1 Hi).
    rewrite Hst1. by repeat split.
  - intros st2. subst st2. rewrite (settle_submit i _ st1 Hi).
    rewrite Hst1. repeat split; try done.
    unfold phase_of. simpl. rewrite Hf.
    by destruct (String.eqb (location st) "/submissions"), (submitting st).
Qed.

(** C10. The emptiness test of a submit attempt is JavaScript falsiness: a
    required and visible field whose value is the number 0 or the boolean
    false is counted as missing, so the attempt sends nothing and marks it
    with the validation error; a required and visible field whose value is
    the empty array is counted as present, so when the other required and
    visible fields hold a value the submission is sent. *)
Theorem emptiness_is_falsiness (f : FormStructure) (fld : SimpleField)
    (values : AnswerSet) (st : state) :
  selectedForm st = Some f →
  fld ∈ allSimpleFields f →
  is_required fld = true →
  shouldShowField fld (formValues st) = true →
  ((formValues st !! id fld = Some (VScalar (SNum 0))
    ∨ formValues st !! id fld = Some (VScalar (SBool false))) →
   id fld ∈ missing f (formValues st)
   ∧ calls (onFinish t values st) = calls st
   ∧ fieldErrors (onFinish t values st) !! id fld = Some [t "required"])
  ∧ (formValues st !! id fld = Some (VArray []) →
     (id fld ∉ missing f (formValues st))
     ∧ ((∀ fld', fld' ∈ allSimpleFields f → is_required fld' = true →
           shouldShowField fld' (formValues st) = true →
           id fld' ≠ id fld →
           truthy (formValues st !! id fld') = true) →
        calls (onFinish t values st)
        = calls st ++ [ApiPost "/insurance/forms/submit" values])).
Proof.
  intros Hf Hin Hreq Hshow. split.
  - intros Hval.
    assert (Hfalsy : member_truthy (member_of (formValues st) (id fld)) = false)
      by (destruct Hval as [Hval | Hval];
          by rewrite (member_of_own _ _ _ Hval)).
    assert (Hmiss : id fld ∈ missing f (formValues st))
      by (apply (proj2 (elem_of_missing f _ _)); by eauto 10).
    split; [exact Hmiss |].
    rewrite (onFinish_blocked f values st Hf)
      by (intros Hnil; rewrite Hnil in Hmiss; by apply elem_of_nil in Hmiss).
    split; [done |]. simpl. rewrite mark_all_lookup. by rewrite decide_True.
  - intros Hval. split.
    + intros (fld' & _ & Hid & _ & _ & Hfalsy)%elem_of_missing.
      rewrite Hid, (member_of_own _ _ _ Hval) in Hfalsy. discriminate.
    + intros Hothers.
      rewrite (onFinish_submits f values st Hf); [done |].
      apply missing_nil. intros fld' Hin' Hreq' Hshow'.
      destruct (decide (id fld' = id fld)) as [-> | Hne]; [by rewrite Hval |].
      by apply Hothers.
Qed.

End Submission.

(** The sample form, selected, with the given answers. *)
Definition sample_page (values : AnswerSet) : state :=
  setFormValues values (setSelectedForm (Some Sample.health) initial).

Lemma submit_blocking_witness :
  let st := sample_page {["smoker" := Sample.yes]} in
  let st' := onFinish Sample.t {["smoker" := Sample.yes]} st in
  calls st' = []
  ∧ fieldErrors st' !! "country" = Some ["required"]
  ∧ fieldErrors st' !! "discount" = Some ["required"]
  ∧ fieldErrors st' !! "smoker" = None
  ∧ phase_of st' = AwaitingInput.
Proof.
  intros st st'.
  assert (Hcountry : Sample.country ∈ allSimpleFields Sample.health)
    by apply list_elem_of_here.
  assert (Hdiscount : Sample.discount ∈ allSimpleFields Sample.health)
    by (do 3 apply list_elem_of_further; apply list_elem_of_here).
  destruct (submit_blocking Sample.t Sample.health {["smoker" := Sample.yes]}
              st eq_refl) as (Hcalls & _ & Hmark & Hrest & Hphase & _).
  { exists Sample.country. by repeat split. }
  split; [exact Hcalls |].
  split; [by apply (Hmark Sample.country) |].
  split; [by apply (Hmark Sample.discount) |].
  split; [| exact Hphase].
  fold st' in Hrest. rewrite (Hrest "smoker"); [reflexivity |].
  assert (Hm : missing Sample.health (formValues st) = ["country"; "discount"])
    by reflexivity.
  rewrite Hm. intros Hin.
  repeat (apply elem_of_cons in Hin as [Hin | Hin]; [discriminate |]).
  by apply elem_of_nil in Hin.
Defined.

Lemma full_payload_submission_witness :
  let values : AnswerSet :=
    {["country" := VScalar (SStr "CA"); "smoker" := Sample.no;
      "discount" := VScalar (SStr "SAVE10"); "gym" := VArray []]} in
  let st1 := onFinish Sample.t values (sample_page values) in
  shouldShowField Sample.discount values = false
  ∧ phase_of st1 = Submitting
  ∧ calls st1 = [ApiPost "/insurance/forms/submit" values]
  ∧ phase_of (settle Sample.t 0 (Resolved NoData) st1) = Submitted
  ∧ phase_of (settle Sample.t 0 Rejected st1) = AwaitingInput
  ∧ messages (settle Sample.t 0 Rejected st1) = [MsgError "submissionFailed"].
Proof.
  intros values st1.
  destruct (full_payload_submission Sample.t Sample.health values
              (sample_page values) eq_refl)
    as ((_ & Hcalls & _ & Hphase) & Hok & (Hback & _ & Hmsg & _)).
  { intros fld Hin Hreq Hshow.
    repeat (apply elem_of_cons in Hin as [-> | Hin]; [done |]).
    by apply elem_of_nil in Hin. }
  split; [reflexivity |].
  split; [by apply Hphase |].
  split; [exact Hcalls |].
  split; [apply (Hok NoData) |].
  split; [by apply Hback | exact Hmsg].
Defined.

Lemma emptiness_is_falsiness_witness :
  let f := {| formId := "life_v1"; title := "Life";
              fields := [Simple Sample.lucky; Simple Sample.gym] |} in
  let page values := setFormValues values (setSelectedForm (Some f) initial) in
  let zero : AnswerSet := {["lucky" := VScalar (SNum 0); "gym" := VArray []]} in
  let seven : AnswerSet := {["lucky" := VScalar (SNum 7); "gym" := VArray []]} in
  (calls (onFinish Sample.t zero (page zero)) = []
   ∧ fieldErrors (onFinish Sample.t zero (page zero)) !! "lucky"
     = Some ["required"])
  ∧ calls (onFinish Sample.t seven (page seven))
    = [ApiPost "/insurance/forms/submit" seven].
Proof.
  intros f page zero seven. split.
  - destruct (emptiness_is_falsiness Sample.t f Sample.lucky zero (page zero)
                eq_refl) as (Hzero & _);
      [apply list_elem_of_here | reflexivity | reflexivity |].
    destruct Hzero as (_ & Hcalls & Herr); [by left |].
    split; [exact Hcalls | exact Herr].
  - destruct (emptiness_is_falsiness Sample.t f Sample.gym seven (page seven)
                eq_refl) as (_ & Hempty);
      [apply list_elem_of_further, list_elem_of_here | reflexivity
      | reflexivity |].
    destruct Hempty as (_ & Hsent); [reflexivity |].
    apply Hsent. intros fld' Hin _ _ Hid.
    repeat (apply elem_of_cons in Hin as [-> | Hin]; [done |]).
    by apply elem_of_nil in Hin.
Defined.

(** ** Reordering *)

Lemma findIndex_Some {A} (p : A → bool) (l : list A) (i : nat) :
  findIndex p l = Some i → ∃ x, l !! i = Some x ∧ p x = true.
Proof.
  revert i. induction l as [| a l IH]; intros i; simpl; [discriminate |].
  destruct (p a) eqn:Hpa.
  - intros [= <-]. by exists a.
  - destruct (findIndex p l) as [j |]; [| discriminate].
    intros [= <-]. by apply IH.
Qed.

Lemma findIndex_None {A} (p : A → bool) (l : list A) :
  findIndex p l = None ↔ ∀ x, x ∈ l → p x = false.
Proof.
  induction l as [| a l IH]; simpl.
  - split; [intros _ x Hx; by apply elem_of_nil in Hx | done].
  - destruct (p a) eqn:Hpa.
    + split; [discriminate |]. intros H.
      specialize (H a (list_elem_of_here _ _)). congruence.
    + destruct (findIndex p l) as [j |] eqn:Hfind.
      * split; [discriminate |]. intros H.
        apply findIndex_Some in Hfind as (x & Hx & Hpx).
        apply list_elem_of_lookup_2 in Hx.
        specialize (H x (list_elem_of_further _ _ _ Hx)). congruence.
      * split; [| done]. intros _ x [-> | Hx]%elem_of_cons; [done |].
        by apply (proj1 IH).
Qed.

Section ArrayMove.

Context {A : Type}.
Variables (l : list A) (from to : nat) (x : A).
Hypothesis Hfrom : l !! from = Some x.
Hypothesis Hto : (to < length l)%nat.

Lemma arrayMove_unfold :
  arrayMove l from to = take to (delete from l) ++ x :: drop to (delete from l).
Proof. unfold arrayMove. by rewrite Hfrom. Qed.

Lemma length_delete_from : length (delete from l) = (length l - 1)%nat.
Proof. apply length_delete. by rewrite Hfrom. Qed.

Lemma length_take_to : length (take to (delete from l)) = to.
Proof. rewrite length_take, length_delete_from. lia. Qed.

Lemma arrayMove_length : length (arrayMove l from to) = length l.
Proof.
  rewrite arrayMove_unfold, length_app. simpl.
  rewrite length_take_to, length_drop, length_delete_from.
  apply lookup_lt_Some in Hfrom. lia.
Qed.

(** The moved item is at the target position. *)
Lemma arrayMove_target : arrayMove l from to !! to = Some x.
Proof.
  rewrite arrayMove_unfold.
  rewrite lookup_app_r; rewrite length_take_to; [| lia].
  by rewrite Nat.sub_diag.
Qed.

Lemma arrayMove_before k :
  (k < to)%nat → arrayMove l from to !! k = delete from l !! k.
Proof.
  intros Hk. rewrite arrayMove_unfold.
  rewrite lookup_app_l by (rewrite length_take_to; lia).
  by apply lookup_take_lt.
Qed.

Lemma arrayMove_after k :
  (to < k)%nat → arrayMove l from to !! k = delete from l !! (k - 1)%nat.
Proof.
  intros Hk. rewrite arrayMove_unfold.
  rewrite lookup_app_r; rewrite length_take_to; [| lia].
  destruct (k - to)%nat as [| j] eqn:Hj; [lia |]. simpl.
  rewrite lookup_drop. f_equal. lia.
Qed.

(** Positions outside the span between the two indices keep their item. *)
Lemma arrayMove_outside k :
  (k < from ∧ k < to)%nat ∨ (from < k ∧ to < k)%nat →
  arrayMove l from to !! k = l !! k.
Proof.
  intros [[Hk1 Hk2] | [Hk1 Hk2]].
  - rewrite arrayMove_before by done. by apply list_lookup_delete_lt.
  - rewrite arrayMove_after by done.
    rewrite list_lookup_delete_ge by lia. f_equal. lia.
Qed.

(** Moving down the list: the items in between move up by one. *)
Lemma arrayMove_shift_up k :
  (from ≤ k < to)%nat → arrayMove l from to !! k = l !! S k.
Proof.
  intros Hk. rewrite arrayMove_before by lia.
  by rewrite list_lookup_delete_ge by lia.
Qed.

(** Moving up the list: the items in between move down by one. *)
Lemma arrayMove_shift_down k :
  (to < k ≤ from)%nat → arrayMove l from to !! k = l !! (k - 1)%nat.
Proof.
  intros Hk. rewrite arrayMove_after by lia.
  by rewrite list_lookup_delete_lt by lia.
Qed.

Lemma arrayMove_perm : arrayMove l from to ≡ₚ l.
Proof.
  rewrite arrayMove_unfold.
  rewrite <- Permutation_middle, take_drop.
  symmetry. by apply delete_Permutation.
Qed.

End ArrayMove.

Lemma selectedForm_restore_draft (st : state) :
  selectedForm (restore_draft st) = selectedForm st.
Proof.
  unfold restore_draft. destruct (selectedForm st) as [f |] eqn:Hf; [| done].
  by destruct (load (formId f) (localStorage st)).
Qed.

(** [f.id === a] *)
Definition has_id (a : string) (item : FieldItem) : bool :=
  String.eqb (item_id item) a.

(** C7. A drag of the item [active] dropped on the item [over] takes the
    item out of its position and puts it back at the position [over] had: it
    is then at that position, the items between the two positions have moved
    by one towards the position it left, and the others have kept their
    place.  The drag changes nothing when the two ids are the same, when one
    of them is not in the current order, and when there is no drop target. *)
Theorem reordering (active over : string) (f : FormStructure) (st : state) :
  selectedForm st = Some f →
  let items := fields f in
  (∀ oldIndex newIndex,
     active ≠ over →
     findIndex (has_id active) items = Some oldIndex →
     findIndex (has_id over) items = Some newIndex →
     ∃ item target items',
       items !! oldIndex = Some item ∧ item_id item = active
       ∧ items !! newIndex = Some target ∧ item_id target = over
       ∧ selectedForm (handleDragEnd active (Some over) st)
         = Some {| formId := formId f; title := title f; fields := items' |}
       ∧ items' = take newIndex (delete oldIndex items)
                  ++ item :: drop newIndex (delete oldIndex items)
       ∧ items' !! newIndex = Some item
       ∧ (∀ k, (oldIndex ≤ k < newIndex)%nat → items' !! k = items !! S k)
       ∧ (∀ k, (newIndex < k ≤ oldIndex)%nat →
            items' !! k = items !! (k - 1)%nat)
       ∧ (∀ k, (k < oldIndex ∧ k < newIndex)%nat
               ∨ (oldIndex < k ∧ newIndex < k)%nat →
            items' !! k = items !! k)
       ∧ items' ≡ₚ items)
  ∧ handleDragEnd active (Some active) st = st
  ∧ ((∀ x, x ∈ items → item_id x ≠ active) →
     handleDragEnd active (Some over) st = st)
  ∧ ((∀ x, x ∈ items → item_id x ≠ over) →
     handleDragEnd active (Some over) st = st)
  ∧ handleDragEnd active None st = st.
Proof.
  intros Hf items. split; [| split; [| split; [| split]]].
  - intros oldIndex newIndex Hne Hold Hnew.
    destruct (findIndex_Some _ _ _ Hold) as (item & Hitem & Hid).
    destruct (findIndex_Some _ _ _ Hnew) as (target & Htarget & Hid').
    apply String.eqb_eq in Hid, Hid'.
    assert (Hlt : (newIndex < length items)%nat)
      by (by apply lookup_lt_Some in Htarget).
    exists item, target, (arrayMove items oldIndex newIndex).
    split; [done |]. split; [done |]. split; [done |]. split; [done |].
    split.
    { unfold handleDragEnd. rewrite Hf.
      apply String.eqb_neq in Hne. rewrite Hne.
      fold items. fold (has_id active) (has_id over). rewrite Hold, Hnew.
      by rewrite selectedForm_restore_draft. }
    split; [by apply arrayMove_unfold |].
    split; [by apply arrayMove_target |].
    split; [intros k Hk; by apply (arrayMove_shift_up _ _ _ item) |].
    split; [intros k Hk; by apply (arrayMove_shift_down _ _ _ item) |].
    split; [intros k Hk; by apply (arrayMove_outside _ _ _ item) |].
    by apply (arrayMove_perm _ _ _ item).
  - unfold handleDragEnd. by rewrite Hf, String.eqb_refl.
  - intros Habsent. unfold handleDragEnd. rewrite Hf.
    destruct (String.eqb active over); [done |].
    fold items. fold (has_id active).
    replace (findIndex (has_id active) items) with (@None nat); [done |].
    symmetry. apply findIndex_None. intros x Hx.
    apply String.eqb_neq. by apply Habsent.
  - intros Habsent. unfold handleDragEnd. rewrite Hf.
    destruct (String.eqb active over); [done |].
    fold items. fold (has_id over).
    replace (findIndex (has_id over) items) with (@None nat);
      [by destruct (findIndex _ items) |].
    symmetry. apply findIndex_None. intros x Hx.
    apply String.eqb_neq. by apply Habsent.
  - done.
Qed.

Lemma reordering_witness :
  let letters :=
    {| formId := "letters"; title := "Letters";
       fields := [Simple (Sample.plain "A" "a" "text");
                  Simple (Sample.plain "B" "b" "text");
                  Simple (Sample.plain "C" "c" "text");
                  Simple (Sample.plain "D" "d" "text")] |} in
  let st := setSelectedForm (Some letters) initial in
  (map item_id ∘ fields) <$> selectedForm (handleDragEnd "A" (Some "C") st)
  = Some ["B"; "C"; "A"; "D"]
  ∧ handleDragEnd "A" (Some "A") st = st
  ∧ handleDragEnd "A" (Some "E") st = st.
Proof.
  intros letters st.
  destruct (reordering "A" "C" letters st eq_refl) as (Hmove & Hsame & _).
  destruct (Hmove 0%nat 2%nat) as
    (item & target & items' & Hitem & _ & _ & _ & Hsel & Hitems' & _);
    [discriminate | reflexivity | reflexivity |].
  split; [| split; [exact Hsame |]].
  - rewrite Hsel, Hitems'. injection Hitem as <-. reflexivity.
  - destruct (reordering "A" "E" letters st eq_refl) as (_ & _ & _ & Habsent & _).
    apply Habsent. intros x Hx.
    repeat (apply elem_of_cons in Hx as [-> | Hx]; [discriminate |]).
    by apply elem_of_nil in Hx.
Defined.

(** ** Dynamic options *)

(** The option list a settled request for the states leaves in the cache. *)
Definition fetched_options (res : Response) : list string :=
  match res with
  | Resolved (Data (StatesArray states)) => states
  | _ => []
  end.

Lemma handleCountryChange_settled_options (res : Response) (st : state) :
  handleCountryChange_settled res st
  = setDynamicOptions (λ prev, <["state" := fetched_options res]> prev) st.
Proof. by destruct res as [| [| [states | v]]]. Qed.

Lemma onValuesChange_country_reset (val : option value)
    (rest : list (string * option value)) (allValues : AnswerSet) (st : state) :
  falsy val = true →
  onValuesChange (("country", val) :: rest) allValues st
  = save_draft (selectedForm st) allValues
      (setDynamicOptions (λ prev, <["state" := []]> prev) st).
Proof. intros Hval. unfold onValuesChange, handleCountryChange. by rewrite Hval. Qed.

Lemma onValuesChange_country_fetch (val : option value)
    (rest : list (string * option value)) (allValues : AnswerSet) (st : state) :
  falsy val = false →
  onValuesChange (("country", val) :: rest) allValues st
  = setAwaiting
      (<[length (calls st) := AwaitStates (selectedForm st) allValues]>
         (awaiting st))
      (send (ApiGet "/getStates" val) st).1.
Proof. intros Hval. unfold onValuesChange, handleCountryChange. by rewrite Hval. Qed.

Lemma save_draft_fields (cf : option FormStructure) (allValues : AnswerSet)
    (st : state) :
  save_draft cf allValues st
  = setLocalStorage (localStorage (save_draft cf allValues st)) st.
Proof. destruct cf; [done | by destruct st]. Qed.

Section Settle.

Variable t : string → string.

Lemma settle_states i res st cf allValues :
  awaiting st !! i = Some (AwaitStates cf allValues) →
  settle t i res st
  = save_draft cf allValues
      (setDynamicOptions (λ prev, <["state" := fetched_options res]> prev)
         (setAwaiting (delete i (awaiting st)) st)).
Proof.
  intros Hi. unfold settle. rewrite Hi.
  by rewrite handleCountryChange_settled_options.
Qed.

Lemma settle_states_options i res st cf allValues :
  awaiting st !! i = Some (AwaitStates cf allValues) →
  dynamicOptions (settle t i res st)
  = <["state" := fetched_options res]> (dynamicOptions st).
Proof.
  intros Hi. rewrite (settle_states i res st cf allValues Hi).
  by rewrite save_draft_fields.
Qed.

Lemma settle_states_awaiting i res st cf allValues :
  awaiting st !! i = Some (AwaitStates cf allValues) →
  awaiting (settle t i res st) = delete i (awaiting st).
Proof.
  intros Hi. rewrite (settle_states i res st cf allValues Hi).
  by rewrite save_draft_fields.
Qed.

(** C8, as the code has it: the one trigger is the field named country, and
    what depends on it is the entry of the cache named state.  When the
    country changes to an empty or absent value, the cached
    options of the state field become the empty list and no request is sent.
    Otherwise one request is sent, and when it settles the cache holds the
    array of the response, or the empty list when the request failed, when
    the response has no body, and when its [states] member is not an array;
    in each case the handler completes, shows no message, marks no field
    and leaves the form and its answers as they were.  A change of any
    other field, whatever the fields of the form declare to depend on it,
    leaves the cached options as they are and sends no request. *)
Theorem option_failure_recovery (val : option value) (allValues : AnswerSet)
    (st : state) :
  let st1 := onValuesChange [("country", val)] allValues st in
  let i := length (calls st) in
  (falsy val = true →
   dynamicOptions st1 = <["state" := []]> (dynamicOptions st)
   ∧ calls st1 = calls st
   ∧ awaiting st1 = awaiting st)
  ∧ (falsy val = false →
     calls st1 = calls st ++ [ApiGet "/getStates" val]
     ∧ dynamicOptions st1 = dynamicOptions st
     ∧ dynamicOptions (settle t i Rejected st1)
       = <["state" := []]> (dynamicOptions st)
     ∧ dynamicOptions (settle t i (Resolved NoData) st1)
       = <["state" := []]> (dynamicOptions st)
     ∧ (∀ v, dynamicOptions (settle t i (Resolved (Data (NotArray v))) st1)
             = <["state" := []]> (dynamicOptions st))
     ∧ (∀ states,
          dynamicOptions (settle t i (Resolved (Data (StatesArray states))) st1)
          = <["state" := states]> (dynamicOptions st))
     ∧ (∀ res,
          let st2 := settle t i res st1 in
          messages st2 = messages st
          ∧ fieldErrors st2 = fieldErrors st
          ∧ selectedForm st2 = selectedForm st
          ∧ formValues st2 = formValues st
          ∧ calls st2 = calls st1
          ∧ awaiting st2 !! i = None))
  ∧ (∀ key v rest,
       key ≠ "country" →
       let st' := onValuesChange ((key, v) :: rest) allValues st in
       dynamicOptions st' = dynamicOptions st ∧ calls st' = calls st).
Proof.
  intros st1 i.
  split; [| split]; [intros Hval; subst st1 | intros Hval; subst st1 |].
  3:{ intros key v rest Hkey st'. subst st'. unfold onValuesChange.
      apply String.eqb_neq in Hkey. rewrite Hkey.
      destruct (String.eqb key EmptyString); [done |].
      by rewrite save_draft_fields. }
  - rewrite (onValuesChange_country_reset _ _ _ _ Hval).
    rewrite save_draft_fields. by repeat split.
  - rewrite (onValuesChange_country_fetch _ _ _ _ Hval).
    fold i. set (k := AwaitStates (selectedForm st) allValues).
    set (st1 := setAwaiting _ _).
    assert (Hi : awaiting st1 !! i = Some k) by apply lookup_insert_eq.
    split; [done |]. split; [done |].
    split; [by rewrite (settle_states_options i _ st1 _ _ Hi) |].
    split; [by rewrite (settle_states_options i _ st1 _ _ Hi) |].
    split; [intros v; by rewrite (settle_states_options i _ st1 _ _ Hi) |].
    split; [intros s; by rewrite (settle_states_options i _ st1 _ _ Hi) |].
    intros res st2. subst st2. rewrite (settle_states i res st1 _ _ Hi).
    rewrite save_draft_fields. simpl. repeat split; try done.
    apply lookup_delete_eq.
Qed.

(** C1, as the code has it. When the country changes twice in succession,
    sending a first and then a second request for the states, the cached
    option list of the state field ends up equal to the result of the
    request that settles last: the second one's when the first settles
    first, the first one's when the first settles after the second. *)
Theorem last_settled_response_wins (v1 v2 : option value)
    (all1 all2 : AnswerSet) (st : state) :
  falsy v1 = false →
  falsy v2 = false →
  let st2 :=
    onValuesChange [("country", v2)] all2
      (onValuesChange [("country", v1)] all1 st) in
  let f1 := length (calls st) in
  let f2 := S f1 in
  calls st2 = calls st ++ [ApiGet "/getStates" v1; ApiGet "/getStates" v2]
  ∧ ∀ r1 r2,
      dynamicOptions (settle t f2 r2 (settle t f1 r1 st2)) !! "state"
      = Some (fetched_options r2)
      ∧ dynamicOptions (settle t f1 r1 (settle t f2 r2 st2)) !! "state"
        = Some (fetched_options r1).
Proof.
  intros Hv1 Hv2 st2 f1 f2.
  subst st2. rewrite (onValuesChange_country_fetch _ _ _ _ Hv1).
  rewrite (onValuesChange_country_fetch _ _ _ _ Hv2).
  simpl calls. simpl selectedForm. simpl awaiting.
  rewrite length_app, Nat.add_1_r. fold f1. fold f2.
  set (k1 := AwaitStates (selectedForm st) all1).
  set (k2 := AwaitStates (selectedForm st) all2).
  set (st2 := setAwaiting _ _).
  assert (Hne : f2 ≠ f1) by (subst f2; lia).
  assert (H1 : awaiting st2 !! f1 = Some k1).
  { subst st2. simpl. rewrite lookup_insert_ne by done. apply lookup_insert_eq. }
  assert (H2 : awaiting st2 !! f2 = Some k2).
  { subst st2. simpl. apply lookup_insert_eq. }
  split; [subst st2; simpl; by rewrite <- app_assoc |].
  intros r1 r2. split.
  - rewrite (settle_states_options f2 r2 _ (selectedForm st) all2).
    + apply lookup_insert_eq.
    + rewrite (settle_states_awaiting f1 r1 st2 _ _ H1).
      by rewrite lookup_delete_ne.
  - rewrite (settle_states_options f1 r1 _ (selectedForm st) all1).
    + apply lookup_insert_eq.
    + rewrite (settle_states_awaiting f2 r2 st2 _ _ H2).
      by rewrite lookup_delete_ne.
Qed.

End Settle.

Lemma option_failure_recovery_witness :
  let st := sample_page ∅ in
  let us : option value := Some (VScalar (SStr "US")) in
  let st1 := onValuesChange [("country", us)] {["country" := VScalar (SStr "US")]} st in
  (dynamicOptions (onValuesChange [("country", None)] ∅ st) !! "state" = Some []
   ∧ calls (onValuesChange [("country", None)] ∅ st) = [])
  ∧ calls st1 = [ApiGet "/getStates" us]
  ∧ dynamicOptions (settle Sample.t 0 Rejected st1) !! "state" = Some []
  ∧ messages (settle Sample.t 0 Rejected st1) = []
  ∧ dynamicOptions
      (settle Sample.t 0 (Resolved (Data (NotArray (Some (SStr "none"))))) st1)
    !! "state" = Some [].
Proof.
  intros st us st1. split.
  - destruct (option_failure_recovery Sample.t None ∅ st) as (Hreset & _).
    destruct Hreset as (Hopts & Hcalls & _); [reflexivity |].
    split; [exact (f_equal (λ m, m !! "state") Hopts) | exact Hcalls].
  - destruct (option_failure_recovery Sample.t us
                {["country" := VScalar (SStr "US")]} st) as (_ & Hfetch & _).
    destruct Hfetch as (Hcalls & _ & Hrej & _ & Hnot & _ & Hquiet);
      [reflexivity |].
    split; [exact Hcalls |].
    split; [exact (f_equal (λ m, m !! "state") Hrej) |].
    split; [apply (Hquiet Rejected) |].
    exact (f_equal (λ m, m !! "state") (Hnot (Some (SStr "none")))).
Defined.

(** The states of the two countries of the sample form. *)
Definition us_states : list string := ["NY"; "TX"].
Definition ca_states : list string := ["ON"; "QC"].

Definition answer_country (c : string) : event :=
  ValuesChange [("country", Some (VScalar (SStr c)))]
    {["country" := VScalar (SStr c)]}.

(** C1 as stated does not hold.  The country goes to US and then to CA, the
    response for CA arrives first and the one for US after it: the form
    holds CA, and the cached options of the state field are those of US, not
    those of CA. *)
Lemma stale_response_overwrites :
  let st :=
    run Sample.t (sample_page ∅)
      [ answer_country "US";
        answer_country "CA";
        Settle 1 (Resolved (Data (StatesArray ca_states)));
        Settle 0 (Resolved (Data (StatesArray us_states))) ] in
  calls st = [ ApiGet "/getStates" (Some (VScalar (SStr "US")));
               ApiGet "/getStates" (Some (VScalar (SStr "CA"))) ]
  ∧ formValues st !! "country" = Some (VScalar (SStr "CA"))
  ∧ dynamicOptions st !! "state" = Some us_states
  ∧ bool_decide (dynamicOptions st !! "state" = Some ca_states) = false.
Proof. vm_compute. repeat split. Qed.

Lemma last_settled_response_wins_witness :
  let us : option value := Some (VScalar (SStr "US")) in
  let ca : option value := Some (VScalar (SStr "CA")) in
  let st2 :=
    onValuesChange [("country", ca)] {["country" := VScalar (SStr "CA")]}
      (onValuesChange [("country", us)] {["country" := VScalar (SStr "US")]}
         (sample_page ∅)) in
  dynamicOptions
    (settle Sample.t 1 (Resolved (Data (StatesArray ca_states)))
       (settle Sample.t 0 (Resolved (Data (StatesArray us_states))) st2))
  !! "state" = Some ca_states
  ∧ dynamicOptions
      (settle Sample.t 0 (Resolved (Data (StatesArray us_states)))
         (settle Sample.t 1 (Resolved (Data (StatesArray ca_states))) st2))
    !! "state" = Some us_states.
Proof.
  intros us ca st2.
  destruct (last_settled_response_wins Sample.t us ca
              {["country" := VScalar (SStr "US")]}
              {["country" := VScalar (SStr "CA")]}
              (sample_page ∅) eq_refl eq_refl) as (_ & Hlast).
  exact (Hlast (Resolved (Data (StatesArray us_states)))
               (Resolved (Data (StatesArray ca_states)))).
Defined.

(** ** Drafts: reading back what was written *)

Module JsonFacts.

Import Json.
Local Open Scope char_scope.
Local Open Scope nat_scope.

(** A text that does not go on with a digit: what follows a number. *)
Definition ends_number (rest : text) : Prop :=
  match rest with
  | [] => True
  | c :: _ => digit c = None
  end.

(** What the writer gives for an object with a negative number and an
    array, and what the reader makes of escapes the writer never uses. *)
Example stringify_sample :
  stringify {["n"%string := VScalar (SNum (-12));
              "l"%string := VArray [SBool true; SNull]]}
  = string_of_list_ascii
      (["{"; dquote; "n"; dquote; ":"; "-"; "1"; "2"; ",";
        dquote; "l"; dquote; ":"; "["; "t"; "r"; "u"; "e"; ",";
        "n"; "u"; "l"; "l"; "]"; "}"]).
Proof. reflexivity. Qed.

Example parse_sample :
  parse_object
    (["{"; dquote; "a"; dquote; ":"; dquote; "\"; "u"; "0"; "0"; "4"; "1";
      "\"; "/"; "\"; "n"; dquote; "}"])
  = Some [("a"%string,
           VScalar (SStr (String "A" (String "/" (String (ascii_of_nat 10)
                                                    EmptyString)))))].
Proof. reflexivity. Qed.

Example parse_rejects_raw_newline :
  parse_object (["{"; dquote; "a"; dquote; ":"; dquote; ascii_of_nat 10;
                 dquote; "}"]) = None.
Proof. reflexivity. Qed.

Lemma parse_string_body_escape (c : ascii) (rest : text) :
  parse_string_body (escape_char c ++ rest)
  = match parse_string_body rest with
    | Some (body, rest') => Some (c :: body, rest')
    | None => None
    end.
Proof. destruct c as [[] [] [] [] [] [] [] []]; reflexivity. Qed.

Lemma parse_string_body_print (s rest : text) :
  parse_string_body (flat_map escape_char s ++ dquote :: rest) = Some (s, rest).
Proof.
  induction s as [| c s IH]; [reflexivity |].
  cbn [flat_map]. rewrite <- app_assoc, parse_string_body_escape.
  by rewrite IH.
Qed.

Lemma parse_string_print (s : string) (rest : text) :
  parse_string (print_string s ++ rest) = Some (s, rest).
Proof.
  unfold print_string, parse_string. cbn [app].
  replace (Ascii.eqb dquote dquote) with true by reflexivity.
  rewrite <- app_assoc. cbn [app].
  by rewrite parse_string_body_print, string_of_list_ascii_of_string.
Qed.

Lemma read_uint_ends (rest : text) :
  ends_number rest → read_uint rest = (Nil, rest).
Proof. destruct rest as [| c rest]; [done |]. simpl. by intros ->. Qed.

Lemma read_uint_print (u : uint) (rest : text) :
  ends_number rest → read_uint (print_uint u ++ rest) = (u, rest).
Proof.
  intros Hrest.
  induction u as [| u IH | u IH | u IH | u IH | u IH | u IH | u IH | u IH
                  | u IH | u IH ];
    [by apply read_uint_ends | ..];
    cbn [print_uint app read_uint];
    match goal with
    | |- context [digit ?c] =>
        let d := eval vm_compute in (digit c) in
        change (digit c) with d
    end;
    cbn beta iota; by rewrite IH.
Qed.

Lemma print_uint_nonnil (u : uint) :
  u ≠ Nil → ∃ c tl, print_uint u = c :: tl ∧ is_Some (digit c).
Proof. destruct u; [done | ..]; intros _; simpl; eauto. Qed.

Lemma digit_not_minus (c : ascii) : is_Some (digit c) → c ≠ "-".
Proof. intros [d Hd] ->. discriminate. Qed.

Lemma parse_number_digits (u : uint) (rest : text) :
  u ≠ Nil → ends_number rest →
  parse_number (print_uint u ++ rest) = Some (Z.of_int (Pos u), rest).
Proof.
  intros Hu Hrest.
  destruct (print_uint_nonnil u Hu) as (c & tl & Hprint & Hdigit).
  assert (Hread := read_uint_print u rest Hrest).
  rewrite Hprint in *. cbn [app] in *.
  assert (Hparse : parse_number (c :: tl ++ rest)
                   = match read_uint (c :: tl ++ rest) with
                     | (Nil, _) => None
                     | (u', rest') => Some (Z.of_int (Pos u'), rest')
                     end).
  { apply digit_not_minus in Hdigit.
    destruct c as [[] [] [] [] [] [] [] []]; try reflexivity. done. }
  rewrite Hparse, Hread. by destruct u.
Qed.

Lemma to_int_nonnil (n : Z) :
  match Z.to_int n with Pos u | Neg u => u ≠ Nil end.
Proof.
  destruct n as [| p | p]; simpl; [done | ..];
    apply Unsigned.to_uint_nonnil.
Qed.

Lemma parse_number_print (n : Z) (rest : text) :
  ends_number rest →
  parse_number (print_number n ++ rest) = Some (n, rest).
Proof.
  intros Hrest. unfold print_number.
  pose proof (to_int_nonnil n) as Hu. pose proof (DecimalZ.of_to n) as Hn.
  destruct (Z.to_int n) as [u | u].
  - rewrite parse_number_digits by done. by rewrite Hn.
  - cbn [app parse_number]. rewrite read_uint_print by done.
    rewrite Hn. by destruct u.
Qed.

(** How a scalar starts: with [n], [t], [f], a quote, a minus or a digit. *)
Lemma parse_scalar_number (s : text) :
  (∃ c tl, s = c :: tl ∧ (c = "-" ∨ is_Some (digit c))) →
  parse_scalar s
  = match parse_number s with
    | Some (n, rest) => Some (SNum n, rest)
    | None => None
    end.
Proof.
  intros (c & tl & -> & Hc).
  destruct c as [[] [] [] [] [] [] [] []];
    try reflexivity; exfalso; destruct Hc as [Hc | [d Hc]]; discriminate.
Qed.

Lemma print_number_head (n : Z) :
  ∃ c tl, print_number n = c :: tl ∧ (c = "-" ∨ is_Some (digit c)).
Proof.
  unfold print_number. pose proof (to_int_nonnil n) as Hu.
  destruct (Z.to_int n) as [u | u].
  - destruct (print_uint_nonnil u Hu) as (c & tl & -> & Hc). eauto.
  - eauto.
Qed.

Lemma parse_scalar_print (v : scalar) (rest : text) :
  ends_number rest →
  parse_scalar (print_scalar v ++ rest) = Some (v, rest).
Proof.
  intros Hrest. destruct v as [| [] | n | s]; try reflexivity.
  - cbn [print_scalar]. rewrite parse_scalar_number.
    + by rewrite parse_number_print.
    + destruct (print_number_head n) as (c & tl & -> & Hc). by exists c, (tl ++ rest).
  - cbn [print_scalar].
    assert (Hs : parse_scalar (print_string s ++ rest)
                 = match parse_string (print_string s ++ rest) with
                   | Some (str, rest') => Some (SStr str, rest')
                   | None => None
                   end) by reflexivity.
    by rewrite Hs, parse_string_print.
Qed.

Lemma print_scalar_head (v : scalar) :
  ∃ c tl, print_scalar v = c :: tl ∧ c ≠ "[" ∧ c ≠ "{".
Proof.
  destruct v as [| [] | n | s]; cbn [print_scalar].
  - eexists _, _. split; [done |]. split; discriminate.
  - eexists _, _. split; [done |]. split; discriminate.
  - eexists _, _. split; [done |]. split; discriminate.
  - destruct (print_number_head n) as (c & tl & -> & [-> | [d Hd]]);
      eexists _, _; (split; [done |]); split; try discriminate.
    all: intros ->; discriminate.
  - unfold print_string. eexists _, _. split; [done |]. split; discriminate.
Qed.

Lemma length_print_scalar (v : scalar) : 1 ≤ length (print_scalar v).
Proof. destruct (print_scalar_head v) as (c & tl & -> & _). simpl. lia. Qed.

Lemma length_print_elems (v : scalar) (l : list scalar) :
  length l < length (print_elems v l).
Proof.
  revert v. induction l as [| w l IH]; intros v; simpl.
  - pose proof (length_print_scalar v). lia.
  - rewrite length_app. simpl. specialize (IH w). lia.
Qed.

Lemma parse_elems_print (l : list scalar) (v : scalar) (rest : text) (fuel : nat) :
  length l < fuel →
  parse_elems fuel (print_elems v l ++ "]" :: rest) = Some (v :: l, rest).
Proof.
  revert v fuel. induction l as [| w l IH]; intros v fuel Hfuel;
    (destruct fuel as [| fuel]; [lia |]); cbn [print_elems parse_elems].
  - by rewrite parse_scalar_print.
  - rewrite <- app_assoc. cbn [app]. rewrite parse_scalar_print by done.
    rewrite IH by (simpl in Hfuel; lia). done.
Qed.

Lemma parse_value_scalar (fuel : nat) (c : ascii) (tl : text) :
  c ≠ "[" →
  parse_value fuel (c :: tl)
  = match parse_scalar (c :: tl) with
    | Some (v, rest) => Some (VScalar v, rest)
    | None => None
    end.
Proof. intros Hc. destruct c as [[] [] [] [] [] [] [] []]; try reflexivity. done. Qed.

Lemma print_elems_head (v : scalar) (l : list scalar) :
  ∃ c tl, print_elems v l = c :: tl ∧ c ≠ "]".
Proof.
  destruct (print_scalar_head v) as (c & tl & Hprint & Hc).
  assert (Hclose : c ≠ "]").
  { destruct v as [| [] | n | s]; simpl in Hprint;
      try (injection Hprint as <- _; discriminate).
    destruct (print_number_head n) as (c' & tl' & Hn & [-> | [d Hd]]);
      rewrite Hn in Hprint; injection Hprint as <- _; [discriminate |].
    intros ->. discriminate. }
  destruct l as [| w l]; simpl; rewrite Hprint; eauto.
Qed.

(** The array of a value, empty for a scalar. *)
Definition elems_of (v : value) : list scalar :=
  match v with
  | VScalar _ => []
  | VArray l => l
  end.

Lemma parse_value_print (v : value) (rest : text) (fuel : nat) :
  ends_number rest →
  length (elems_of v) ≤ fuel →
  parse_value fuel (print_value v ++ rest) = Some (v, rest).
Proof.
  intros Hrest Hfuel. destruct v as [s | [| x l]]; [| reflexivity |].
  - cbn [print_value].
    destruct (print_scalar_head s) as (c & tl & Hprint & Hc & _).
    pose proof (parse_scalar_print s rest Hrest) as Hparse.
    rewrite Hprint in *. cbn [app] in *.
    by rewrite parse_value_scalar, Hparse.
  - cbn [print_value app]. rewrite <- app_assoc. cbn [app].
    destruct (print_elems_head x l) as (c & tl & Hprint & Hc).
    pose proof (parse_elems_print l x rest fuel) as Hparse.
    rewrite Hprint in *. cbn [app] in *.
    assert (Hvalue : parse_value fuel ("[" :: c :: tl ++ "]" :: rest)
                     = match parse_elems fuel (c :: tl ++ "]" :: rest) with
                       | Some (vs, rest') => Some (VArray vs, rest')
                       | None => None
                       end).
    { destruct c as [[] [] [] [] [] [] [] []]; try reflexivity. done. }
    rewrite Hvalue, Hparse; [done |]. simpl in Hfuel. lia.
Qed.

Lemma length_print_value (v : value) :
  length (elems_of v) ≤ length (print_value v).
Proof.
  destruct v as [s | [| x l]]; simpl; [lia | lia |].
  rewrite length_app. pose proof (length_print_elems x l). simpl. lia.
Qed.

Lemma print_members_head (m : string * value) (l : list (string * value)) :
  ∃ tl, print_members m l = dquote :: tl.
Proof.
  destruct l; cbn [print_members]; unfold print_member, print_string;
    cbn [app]; eauto.
Qed.

Lemma parse_members_print (l : list (string * value)) (m : string * value)
    (rest : text) (fuel : nat) :
  length (print_members m l) < fuel →
  parse_members fuel (print_members m l ++ "}" :: rest) = Some (m :: l, rest).
Proof.
  revert m fuel. induction l as [| m' l IH]; intros [k v] fuel Hfuel;
    (destruct fuel as [| fuel]; [lia |]);
    cbn [print_members parse_members] in *; unfold print_member in *;
    cbn [fst snd] in *; rewrite !length_app in Hfuel; cbn [length] in Hfuel;
    pose proof (length_print_value v) as Hv;
    repeat (rewrite <- app_assoc; cbn [app]);
    rewrite parse_string_print; cbn beta iota.
  - rewrite parse_value_print by (done || lia). done.
  - rewrite parse_value_print by (done || lia). cbn beta iota.
    rewrite IH by lia. done.
Qed.

Lemma parse_object_print (l : list (string * value)) :
  parse_object (print_object l) = Some l.
Proof.
  destruct l as [| m l]; [reflexivity |]. cbn [print_object].
  pose proof (parse_members_print l m [] (length (print_members m l ++ ["}"])))
    as Hparse.
  destruct (print_members_head m l) as (tl & Hhead).
  rewrite Hhead in *. cbn [app] in *.
  assert (Hobject : parse_object ("{" :: dquote :: tl ++ ["}"])
                    = match parse_members (length (dquote :: tl ++ ["}"]))
                              (dquote :: tl ++ ["}"]) with
                      | Some (ms, []) => Some ms
                      | _ => None
                      end) by reflexivity.
  rewrite Hobject, Hparse; [done |].
  cbn [length]. rewrite length_app. simpl. lia.
Qed.

(** [JSON.parse(JSON.stringify(values))] gives the values back. *)
Lemma parse_stringify (values : AnswerSet) :
  parse (stringify values) = Some values.
Proof.
  unfold parse, stringify.
  rewrite list_ascii_of_string_of_list_ascii, parse_object_print.
  f_equal. rewrite <- (list_to_map_to_list values) at 2.
  apply list_to_map_proper.
  - rewrite reverse_Permutation. apply NoDup_fst_map_to_list.
  - apply reverse_Permutation.
Qed.

Lemma stringify_nonempty (values : AnswerSet) :
  String.eqb (stringify values) EmptyString = false.
Proof. unfold stringify. by destruct (map_to_list values). Qed.

End JsonFacts.

Lemma load_save (formId0 : string) (values : AnswerSet) (ls : gmap string string) :
  load formId0 (save formId0 values ls) = Some values.
Proof.
  unfold load, save. rewrite lookup_insert_eq.
  by rewrite JsonFacts.stringify_nonempty, JsonFacts.parse_stringify.
Qed.

Lemma localStorage_save_draft (f : FormStructure) (allValues : AnswerSet)
    (st : state) :
  localStorage (save_draft (Some f) allValues st)
  = save (formId f) allValues (localStorage st).
Proof. done. Qed.

Lemma selectForm_runs_effect (forms : list FormStructure) (val : string)
    (f : FormStructure) (st : state) :
  List.find (λ x, String.eqb (formId x) val) forms = Some f →
  (selectedForm st = Some f → selectedIsCopy st = true) →
  selectForm forms val st
  = restore_draft
      (setDynamicOptions (λ _, ∅) (resetFields (setSelectedForm (Some f) st))).
Proof.
  intros Hfind Hother. unfold selectForm, same_object. rewrite Hfind.
  destruct (bool_decide (selectedForm st = Some f)) eqn:Hsame; [| done].
  apply bool_decide_eq_true in Hsame. by rewrite (Hother Hsame).
Qed.

Lemma selectForm_same_object (forms : list FormStructure) (val : string)
    (f : FormStructure) (st : state) :
  List.find (λ x, String.eqb (formId x) val) forms = Some f →
  selectedForm st = Some f →
  selectedIsCopy st = false →
  selectForm forms val st
  = setDynamicOptions (λ _, ∅) (resetFields (setSelectedForm (Some f) st)).
Proof.
  intros Hfind Hsel Hcopy. unfold selectForm, same_object.
  rewrite Hfind, Hcopy. by rewrite bool_decide_eq_true_2.
Qed.

(** C6, as the code has it. Reading the draft of a form back after it was
    saved gives the saved answers, scalars and arrays alike; the draft is
    kept under the key draft_ followed by the id of the form; every change
    of an answer of the selected form, in a field whose id is not empty,
    saves the answers as they are after the change (at once, or, when the
    change is a country to fetch the states of, once that request has
    settled, however it settles), while a change in a field whose id is
    empty does nothing; and selecting a form that is not the object selected
    already puts its saved draft back into the form, while selecting again
    the object that is selected empties the form and puts nothing back. *)
Theorem draft_round_trip (t : string → string) (formId0 : string)
    (A : AnswerSet) :
  (∀ ls, load formId0 (save formId0 A ls) = Some A)
  ∧ (∀ ls, save formId0 A ls = <["draft_" +:+ formId0 := Json.stringify A]> ls)
  ∧ (∀ st f key v rest,
       selectedForm st = Some f → formId f = formId0 → key ≠ EmptyString →
       let st1 := onValuesChange ((key, v) :: rest) A st in
       (key ≠ "country" ∨ falsy v = true →
        load formId0 (localStorage st1) = Some A)
       ∧ (key = "country" → falsy v = false →
          calls st1 = calls st ++ [ApiGet "/getStates" v]
          ∧ ∀ res,
              load formId0
                (localStorage (settle t (length (calls st)) res st1))
              = Some A))
  ∧ (∀ st v rest, onValuesChange ((EmptyString, v) :: rest) A st = st)
  ∧ (∀ forms f st,
       List.find (λ x, String.eqb (formId x) formId0) forms = Some f →
       (selectedForm st = Some f → selectedIsCopy st = true) →
       load formId0 (localStorage st) = Some A →
       selectedForm (selectForm forms formId0 st) = Some f
       ∧ formValues (selectForm forms formId0 st) = A)
  ∧ (∀ forms f st,
       List.find (λ x, String.eqb (formId x) formId0) forms = Some f →
       selectedForm st = Some f →
       selectedIsCopy st = false →
       formValues (selectForm forms formId0 st) = ∅).
Proof.
  split; [intros ls; apply load_save |]. split; [done |].
  split; [| split; [done |]; split].
  - intros st f key v rest Hf <- Hkey st1. split.
    + intros Hcase. subst st1. unfold onValuesChange.
      apply String.eqb_neq in Hkey. rewrite Hkey.
      destruct (String.eqb key "country") eqn:Hcountry.
      * apply String.eqb_eq in Hcountry.
        destruct Hcase as [Hne | Hfalsy]; [done |].
        unfold handleCountryChange. rewrite Hfalsy, Hf.
        rewrite localStorage_save_draft. apply load_save.
      * rewrite Hf, localStorage_save_draft. apply load_save.
    + intros -> Hfalsy. subst st1.
      rewrite (onValuesChange_country_fetch _ _ _ _ Hfalsy).
      split; [done |]. intros res.
      erewrite settle_states by apply lookup_insert_eq.
      rewrite Hf, localStorage_save_draft. apply load_save.
  - intros forms f st Hfind Hother Hload.
    rewrite (selectForm_runs_effect forms formId0 f st Hfind Hother).
    apply find_some in Hfind as [_ Hid]. apply String.eqb_eq in Hid.
    unfold restore_draft. simpl. rewrite Hid, Hload. simpl.
    split; [done |]. apply (right_id_L ∅ (∪)).
  - intros forms f st Hfind Hsel Hcopy.
    by rewrite (selectForm_same_object forms formId0 f st Hfind Hsel Hcopy).
Qed.

Lemma draft_round_trip_witness :
  let A : AnswerSet :=
    {["country" := VScalar (SStr "CA"); "age" := VScalar (SNum (-42));
      "smoker" := VScalar (SBool false); "notes" := VScalar SNull;
      "gym" := VArray [SStr "Pool"; SStr "Weights"]; "none" := VArray []]} in
  let typed := onValuesChange [("age", Some (VScalar (SNum (-42))))] A
                 (sample_page A) in
  let later := setLocalStorage (localStorage typed) initial in
  load "health_v1" (localStorage typed) = Some A
  ∧ formValues (selectForm [Sample.health] "health_v1" later) = A.
Proof.
  intros A typed later.
  destruct (draft_round_trip Sample.t "health_v1" A)
    as (_ & _ & Hsave & _ & Hback & _).
  destruct (Hsave (sample_page A) Sample.health "age"
              (Some (VScalar (SNum (-42)))) [] eq_refl eq_refl) as (Hnow & _);
    [discriminate |].
  assert (Hload : load "health_v1" (localStorage typed) = Some A).
  { apply Hnow. left. discriminate. }
  split; [exact Hload |].
  apply (Hback [Sample.health] Sample.health later eq_refl);
    [discriminate | exact Hload].
Defined.

(** A form with a field whose id is the empty string. *)
Definition sample_unnamed : FormStructure :=
  {| formId := "odd_v1"; title := "Odd";
     fields := [Simple (Sample.plain EmptyString "Unnamed" "text")] |}.

(** C6 as stated does not hold.  A change of the answer of a field whose id
    is empty is not saved: reading the draft back gives nothing.  And
    selecting again the form object that is selected, while it has a draft,
    leaves the form empty. *)
Lemma unnamed_change_is_not_saved :
  let A : AnswerSet := {[EmptyString := VScalar (SStr "x")]} in
  let st := setFormValues A (setSelectedForm (Some sample_unnamed) initial) in
  let st' := onValuesChange [(EmptyString, Some (VScalar (SStr "x")))] A st in
  let B : AnswerSet := {["smoker" := Sample.yes]} in
  let typed := onValuesChange [("smoker", Some Sample.yes)] B (sample_page B) in
  formValues st' = A
  ∧ load "odd_v1" (localStorage st') = None
  ∧ load "health_v1" (localStorage typed) = Some B
  ∧ formValues (selectForm [Sample.health] "health_v1" typed) = ∅.
Proof. vm_compute. repeat split. Qed.

(** * Further properties of the form page *)

(** ** The draft store across forms and sessions *)

Lemma draft_key_inj (a b : string) : draft_key a = draft_key b → a = b.
Proof. unfold draft_key. apply (inj (String.app "draft_")). Qed.

Lemma load_save_ne (a b : string) (values : AnswerSet) (ls : gmap string string) :
  a ≠ b → load b (save a values ls) = load b ls.
Proof.
  intros Hne. unfold load, save. rewrite lookup_insert_ne; [done |].
  intros Hkey. by apply draft_key_inj in Hkey.
Qed.

Lemma onValuesChange_other (key : string) (v : option value)
    (rest : list (string * option value)) (allValues : AnswerSet) (st : state) :
  key ≠ EmptyString → key ≠ "country" →
  onValuesChange ((key, v) :: rest) allValues st
  = save_draft (selectedForm st) allValues st.
Proof.
  intros Hkey Hcountry. unfold onValuesChange.
  apply String.eqb_neq in Hkey, Hcountry. by rewrite Hkey, Hcountry.
Qed.

Lemma selectForm_found (forms : list FormStructure) (val : string)
    (f : FormStructure) (st : state) :
  List.find (λ x, String.eqb (formId x) val) forms = Some f →
  formId f = val
  ∧ selectedForm (selectForm forms val st) = Some f
  ∧ ((selectedForm st = Some f → selectedIsCopy st = true) →
     formValues (selectForm forms val st)
     = default ∅ (load val (localStorage st)))
  ∧ dynamicOptions (selectForm forms val st) = ∅
  ∧ fieldErrors (selectForm forms val st) = ∅
  ∧ localStorage (selectForm forms val st) = localStorage st
  ∧ calls (selectForm forms val st) = calls st
  ∧ awaiting (selectForm forms val st) = awaiting st.
Proof.
  intros Hfind.
  assert (Hid : formId f = val).
  { apply find_some in Hfind as [_ Hid]. by apply String.eqb_eq in Hid. }
  split; [done |].
  assert (Hrest : ∀ st', selectedForm st' = Some f →
            selectedForm (restore_draft st') = Some f
            ∧ dynamicOptions (restore_draft st') = dynamicOptions st'
            ∧ fieldErrors (restore_draft st') = fieldErrors st'
            ∧ localStorage (restore_draft st') = localStorage st'
            ∧ calls (restore_draft st') = calls st'
            ∧ awaiting (restore_draft st') = awaiting st').
  { intros st' Hsel. unfold restore_draft. rewrite Hsel.
    by destruct (load (formId f) (localStorage st')). }
  split; [| split].
  - unfold selectForm. rewrite Hfind.
    destruct (same_object st (Some f)); [done |]. by apply Hrest.
  - intros Hother. rewrite (selectForm_runs_effect forms val f st Hfind Hother).
    unfold restore_draft. simpl. rewrite Hid.
    destruct (load val (localStorage st)) as [draft |]; simpl; [| done].
    apply (right_id_L ∅ (∪)).
  - unfold selectForm. rewrite Hfind.
    destruct (same_object st (Some f)); [done |].
    destruct (Hrest (setDynamicOptions (λ _, ∅)
                       (resetFields (setSelectedForm (Some f) st))) eq_refl)
      as (_ & -> & -> & -> & -> & ->). done.
Qed.

(** X1. Mounting the page empties the store: whatever drafts it held, no
    form has a draft afterwards, and a form selected next starts with no
    answers. *)
Theorem mount_discards_every_draft (forms : list FormStructure)
    (val formId0 : string) (st : state) :
  load formId0 (localStorage (mount st)) = None
  ∧ formValues (selectForm forms val (mount st)) = ∅
  ∧ selectedForm (mount st) = selectedForm st
  ∧ formValues (mount st) = formValues st.
Proof.
  split; [done |]. split; [| done].
  unfold selectForm. destruct (same_object _ _); [done |].
  unfold restore_draft. simpl.
  destruct (List.find _ forms) as [f |]; simpl; [| done].
  unfold load. by rewrite lookup_empty.
Qed.

(** X2. The drafts of two forms with different ids do not touch each other:
    saving one leaves what is read for the other as it was. *)
Theorem drafts_are_per_form (a b : string) (values : AnswerSet)
    (ls : gmap string string) :
  a ≠ b →
  load b (save a values ls) = load b ls
  ∧ load a (save a values ls) = Some values.
Proof. intros Hne. split; [by apply load_save_ne | apply load_save]. Qed.

Lemma drafts_are_per_form_witness :
  load "home_v1" (save "health_v1" {["smoker" := Sample.yes]} ∅) = None
  ∧ load "health_v1" (save "health_v1" {["smoker" := Sample.yes]} ∅)
    = Some {["smoker" := Sample.yes]}.
Proof.
  destruct (drafts_are_per_form "health_v1" "home_v1"
              {["smoker" := Sample.yes]} ∅) as (Hother & Hsame);
    [discriminate |].
  split; [exact Hother | exact Hsame].
Defined.

Lemma answer_is_saved (key : string) (v : option value)
    (allValues stored : AnswerSet) (st : state) (f : FormStructure) :
  key ≠ EmptyString → key ≠ "country" →
  selectedForm st = Some f →
  localStorage (onValuesChange [(key, v)] allValues (setFormValues stored st))
  = save (formId f) allValues (localStorage st).
Proof.
  intros Hkey Hcountry Hsel. rewrite onValuesChange_other by done.
  change (selectedForm (setFormValues stored st)) with (selectedForm st).
  by rewrite Hsel.
Qed.

Section Drafts.

Variable t : string → string.

(** X3. Answers given to a form come back after a detour through another
    form: answer a field of form a, select form b and answer a field there,
    select form a again; the form then holds the answers it had, and no
    cached options. (The fields answered are not the country.) *)
Theorem draft_survives_form_switch (forms : list FormStructure)
    (fa fb : FormStructure) (ida idb : string) (A B : AnswerSet)
    (ka kb : string) (va vb : option value) (st : state) :
  List.find (λ x, String.eqb (formId x) ida) forms = Some fa →
  List.find (λ x, String.eqb (formId x) idb) forms = Some fb →
  ida ≠ idb →
  ka ≠ EmptyString → ka ≠ "country" →
  kb ≠ EmptyString → kb ≠ "country" →
  selectedForm st = Some fa →
  let st' :=
    run t st [ ValuesChange [(ka, va)] A; SelectForm forms idb;
               ValuesChange [(kb, vb)] B; SelectForm forms ida ] in
  selectedForm st' = Some fa
  ∧ formValues st' = A
  ∧ dynamicOptions st' = ∅
  ∧ load idb (localStorage st') = Some B.
Proof.
  intros Hfa Hfb Hne Hka Hka' Hkb Hkb' Hsel st'. subst st'.
  unfold run. cbn [foldl step].
  destruct (selectForm_found forms ida fa st Hfa) as (Hida & _).
  destruct (selectForm_found forms idb fb st Hfb) as (Hidb & _).
  set (st1 := onValuesChange [(ka, va)] A (setFormValues A st)).
  assert (Hls1 : localStorage st1 = save ida A (localStorage st)).
  { subst st1. rewrite (answer_is_saved _ _ _ _ _ fa) by done.
    by rewrite Hida. }
  set (st2 := selectForm forms idb st1).
  destruct (selectForm_found forms idb fb st1 Hfb)
    as (_ & Hsel2 & _ & _ & _ & Hls2 & _).
  fold st2 in Hsel2, Hls2.
  set (st3 := onValuesChange [(kb, vb)] B (setFormValues B st2)).
  assert (Hls3 : localStorage st3 = save idb B (save ida A (localStorage st))).
  { subst st3. rewrite (answer_is_saved _ _ _ _ _ fb) by done.
    by rewrite Hidb, Hls2, Hls1. }
  destruct (selectForm_found forms ida fa st3 Hfa)
    as (_ & Hsel4 & Hvals4 & Hopts4 & _ & Hls4 & _).
  assert (Hsel3 : selectedForm st3 = Some fb).
  { subst st3. rewrite onValuesChange_other by done.
    by rewrite save_draft_fields. }
  split; [exact Hsel4 |]. split; [| split; [exact Hopts4 |]].
  - rewrite Hvals4.
    + rewrite Hls3. rewrite load_save_ne by done. by rewrite load_save.
    + rewrite Hsel3. intros [= ->]. congruence.
  - rewrite Hls4, Hls3. apply load_save.
Qed.

End Drafts.

(** A second form, to switch to. *)
Definition sample_home : FormStructure :=
  {| formId := "home_v1"; title := "Home";
     fields := [Simple (Sample.plain "address" "Address" "text")] |}.

Lemma draft_survives_form_switch_witness :
  let forms := [Sample.health; sample_home] in
  let A : AnswerSet := {["smoker" := Sample.yes]} in
  let B : AnswerSet := {["address" := VScalar (SStr "1 Main St")]} in
  let st' :=
    run Sample.t (selectForm forms "health_v1" initial)
      [ ValuesChange [("smoker", Some Sample.yes)] A;
        SelectForm forms "home_v1";
        ValuesChange [("address", Some (VScalar (SStr "1 Main St")))] B;
        SelectForm forms "health_v1" ] in
  selectedForm st' = Some Sample.health ∧ formValues st' = A.
Proof.
  intros forms A B st'.
  assert (Hne : "health_v1" ≠ "home_v1") by discriminate.
  assert (Hsmoker : "smoker" ≠ EmptyString ∧ "smoker" ≠ "country")
    by (split; discriminate).
  assert (Haddress : "address" ≠ EmptyString ∧ "address" ≠ "country")
    by (split; discriminate).
  pose proof (draft_survives_form_switch Sample.t forms Sample.health sample_home
                "health_v1" "home_v1" A B "smoker" "address"
                (Some Sample.yes) (Some (VScalar (SStr "1 Main St")))
                (selectForm forms "health_v1" initial)
                eq_refl eq_refl Hne (proj1 Hsmoker) (proj2 Hsmoker)
                (proj1 Haddress) (proj2 Haddress) eq_refl) as Hback.
  exact (conj (proj1 Hback) (proj1 (proj2 Hback))).
Defined.

Section Races.

Variable t : string → string.

(** X4. A draft can fall behind the form. While the request sent by a change
    of country is under way, a change of another field saves its answers at
    once; when the request settles, the answers of the earlier change of
    country are saved over them. *)
Theorem draft_falls_behind (f : FormStructure) (v w : option value)
    (key : string) (A1 A2 : AnswerSet) (res : Response) (st : state) :
  selectedForm st = Some f →
  falsy v = false →
  key ≠ EmptyString → key ≠ "country" →
  let st1 := onValuesChange [("country", v)] A1 st in
  let st2 := onValuesChange [(key, w)] A2 st1 in
  let st3 := settle t (length (calls st)) res st2 in
  load (formId f) (localStorage st1) = load (formId f) (localStorage st)
  ∧ load (formId f) (localStorage st2) = Some A2
  ∧ load (formId f) (localStorage st3) = Some A1.
Proof.
  intros Hsel Hv Hkey Hcountry st1 st2 st3.
  assert (Hst1 : st1 = setAwaiting
                         (<[length (calls st) := AwaitStates (Some f) A1]>
                            (awaiting st))
                         (send (ApiGet "/getStates" v) st).1).
  { subst st1. by rewrite (onValuesChange_country_fetch _ _ _ _ Hv), Hsel. }
  assert (Hst2 : st2 = save_draft (Some f) A2 st1).
  { subst st2. rewrite onValuesChange_other by done.
    by rewrite Hst1 at 1; simpl; rewrite Hsel. }
  split; [by rewrite Hst1 |]. split.
  - rewrite Hst2, localStorage_save_draft. apply load_save.
  - subst st3.
    rewrite (settle_states t _ res st2 (Some f) A1).
    + rewrite localStorage_save_draft. apply load_save.
    + rewrite Hst2, save_draft_fields, Hst1. simpl. apply lookup_insert_eq.
Qed.

(** X5. Nothing cancels a request. When another form is selected while the
    request for the states is under way, the response still fills the cache
    of options, which the selection had emptied, and the answers of the
    change of country are saved as the draft of the form that was left. *)
Theorem response_after_form_switch (forms : list FormStructure)
    (fa fb : FormStructure) (idb : string) (v : option value) (A : AnswerSet)
    (res : Response) (st : state) :
  selectedForm st = Some fa →
  falsy v = false →
  List.find (λ x, String.eqb (formId x) idb) forms = Some fb →
  let st1 := onValuesChange [("country", v)] A st in
  let st2 := selectForm forms idb st1 in
  let st3 := settle t (length (calls st)) res st2 in
  dynamicOptions st2 = ∅
  ∧ selectedForm st3 = Some fb
  ∧ dynamicOptions st3 = {["state" := fetched_options res]}
  ∧ load (formId fa) (localStorage st3) = Some A.
Proof.
  intros Hsel Hv Hfind st1 st2 st3.
  destruct (selectForm_found forms idb fb st1 Hfind)
    as (_ & Hsel2 & _ & Hopts2 & _ & _ & _ & Hawait2).
  fold st2 in Hsel2, Hopts2, Hawait2.
  assert (Hi : awaiting st2 !! length (calls st) = Some (AwaitStates (Some fa) A)).
  { rewrite Hawait2. subst st1.
    rewrite (onValuesChange_country_fetch _ _ _ _ Hv), Hsel. simpl.
    apply lookup_insert_eq. }
  split; [exact Hopts2 |]. subst st3.
  rewrite (settle_states t _ res st2 _ _ Hi).
  split; [by rewrite save_draft_fields |]. split.
  - rewrite save_draft_fields. simpl. rewrite Hopts2.
    apply insert_empty.
  - rewrite localStorage_save_draft. apply load_save.
Qed.

End Races.

(** X6. Dropping a dragged item on another one also puts the saved draft of
    the form back into it: the members of the draft replace the answers of
    the same name, the other answers stay; when the draft is what the form
    holds, the answers do not change. *)
Theorem drag_reapplies_draft (active over : string) (f : FormStructure)
    (oldIndex newIndex : nat) (st : state) :
  selectedForm st = Some f →
  active ≠ over →
  findIndex (has_id active) (fields f) = Some oldIndex →
  findIndex (has_id over) (fields f) = Some newIndex →
  let st' := handleDragEnd active (Some over) st in
  (∀ draft, load (formId f) (localStorage st) = Some draft →
     formValues st' = draft ∪ formValues st)
  ∧ (load (formId f) (localStorage st) = None → formValues st' = formValues st)
  ∧ (load (formId f) (localStorage st) = Some (formValues st) →
     formValues st' = formValues st).
Proof.
  intros Hsel Hne Hold Hnew st'.
  assert (Hvals : formValues st'
                  = match load (formId f) (localStorage st) with
                    | Some draft => draft ∪ formValues st
                    | None => formValues st
                    end).
  { subst st'. unfold handleDragEnd. rewrite Hsel.
    apply String.eqb_neq in Hne. rewrite Hne.
    fold (has_id active) (has_id over). rewrite Hold, Hnew.
    unfold restore_draft. simpl.
    by destruct (load (formId f) (localStorage st)). }
  split; [| split].
  - intros draft Hload. by rewrite Hvals, Hload.
  - intros Hload. by rewrite Hvals, Hload.
  - intros Hload. rewrite Hvals, Hload. apply (idemp_L (∪)).
Qed.

Lemma draft_falls_behind_witness :
  let us : option value := Some (VScalar (SStr "US")) in
  let A1 : AnswerSet := {["country" := VScalar (SStr "US")]} in
  let A2 : AnswerSet :=
    {["country" := VScalar (SStr "US"); "smoker" := Sample.yes]} in
  let st1 := onValuesChange [("country", us)] A1 (sample_page ∅) in
  let st2 := onValuesChange [("smoker", Some Sample.yes)] A2 st1 in
  let st3 := settle Sample.t (length (calls (sample_page ∅))) Rejected st2 in
  load "health_v1" (localStorage st2) = Some A2
  ∧ load "health_v1" (localStorage st3) = Some A1.
Proof.
  intros us A1 A2.
  assert (Hkey : "smoker" ≠ EmptyString ∧ "smoker" ≠ "country")
    by (split; discriminate).
  exact (proj2 (draft_falls_behind Sample.t Sample.health us (Some Sample.yes)
                  "smoker" A1 A2 Rejected (sample_page ∅) eq_refl eq_refl
                  (proj1 Hkey) (proj2 Hkey))).
Defined.

Lemma response_after_form_switch_witness :
  let forms := [Sample.health; sample_home] in
  let us : option value := Some (VScalar (SStr "US")) in
  let A : AnswerSet := {["country" := VScalar (SStr "US")]} in
  let st1 := onValuesChange [("country", us)] A (sample_page ∅) in
  let st2 := selectForm forms "home_v1" st1 in
  let st3 := settle Sample.t (length (calls (sample_page ∅)))
               (Resolved (Data (StatesArray us_states))) st2 in
  dynamicOptions st2 = ∅
  ∧ selectedForm st3 = Some sample_home
  ∧ dynamicOptions st3
    = {["state" := fetched_options (Resolved (Data (StatesArray us_states)))]}
  ∧ load (formId Sample.health) (localStorage st3) = Some A.
Proof.
  intros forms us A.
  exact (response_after_form_switch Sample.t forms Sample.health sample_home
           "home_v1" us A (Resolved (Data (StatesArray us_states)))
           (sample_page ∅) eq_refl eq_refl eq_refl).
Defined.

Lemma drag_reapplies_draft_witness :
  formValues (handleDragEnd "country" (Some "smoker")
                (sample_page {["smoker" := Sample.yes]}))
  = {["smoker" := Sample.yes]}.
Proof.
  assert (Hne : "country" ≠ "smoker") by discriminate.
  destruct (drag_reapplies_draft "country" "smoker" Sample.health 0 2
              (sample_page {["smoker" := Sample.yes]}) eq_refl Hne
              eq_refl eq_refl) as (_ & Hnone & _).
  apply Hnone. reflexivity.
Defined.

(** ** Reordering, again *)

Lemma handleDragEnd_moves (active over : string) (f : FormStructure)
    (oldIndex newIndex : nat) (st : state) :
  selectedForm st = Some f →
  active ≠ over →
  findIndex (has_id active) (fields f) = Some oldIndex →
  findIndex (has_id over) (fields f) = Some newIndex →
  handleDragEnd active (Some over) st
  = restore_draft
      (setSelectedCopy
         {| formId := formId f; title := title f;
            fields := arrayMove (fields f) oldIndex newIndex |} st).
Proof.
  intros Hsel Hne Hold Hnew. unfold handleDragEnd. rewrite Hsel.
  apply String.eqb_neq in Hne. rewrite Hne.
  fold (has_id active) (has_id over). by rewrite Hold, Hnew.
Qed.

Lemma arrayMove_inverse {A} (l : list A) (i j : nat) (x : A) :
  l !! i = Some x → (j < length l)%nat →
  arrayMove (arrayMove l i j) j i = l.
Proof.
  intros Hi Hj.
  assert (Hi' : (i < length l)%nat) by (by apply lookup_lt_Some in Hi).
  pose proof (arrayMove_target l i j x Hi Hj) as Hx.
  assert (Hlen : (i < length (arrayMove l i j))%nat)
    by (by rewrite (arrayMove_length l i j x)).
  apply list_eq. intros k.
  destruct (decide (k = i)) as [-> | Hki].
  { by rewrite (arrayMove_target _ j i x). }
  destruct (decide (j ≤ k < i)%nat) as [Hup | Hnup].
  { rewrite (arrayMove_shift_up _ j i x) by done.
    rewrite (arrayMove_shift_down l i j x) by (done || lia).
    f_equal. lia. }
  destruct (decide (i < k ≤ j)%nat) as [Hdown | Hndown].
  { rewrite (arrayMove_shift_down _ j i x) by done.
    rewrite (arrayMove_shift_up l i j x) by (done || lia).
    f_equal. lia. }
  rewrite (arrayMove_outside _ j i x) by (done || lia).
  apply (arrayMove_outside l i j x); (done || lia).
Qed.

Lemma findIndex_NoDup (l : list FieldItem) (i : nat) (x : FieldItem) :
  NoDup (item_id <$> l) → l !! i = Some x →
  findIndex (has_id (item_id x)) l = Some i.
Proof.
  revert i. induction l as [| y l IH]; intros i Hnodup Hi; [done |].
  rewrite fmap_cons in Hnodup. apply NoDup_cons in Hnodup as [Hy Hnodup].
  destruct i as [| i]; simpl in *.
  - injection Hi as ->. unfold has_id. by rewrite String.eqb_refl.
  - destruct (has_id (item_id x) y) eqn:Hyx.
    + apply String.eqb_eq in Hyx. exfalso. apply Hy. rewrite Hyx.
      apply list_elem_of_fmap. exists x. split; [done |].
      by apply list_elem_of_lookup_2 in Hi.
    + by rewrite (IH i Hnodup Hi).
Qed.

(** X7. A move can be taken back. In a form whose top-level ids are all
    different, after the item at one position was dropped on the item at
    another, dropping it on the item that now stands at its old position
    gives the old order back. *)
Theorem drag_back_restores_order (f : FormStructure) (i j : nat)
    (x y z : FieldItem) (st : state) :
  selectedForm st = Some f →
  NoDup (item_id <$> fields f) →
  fields f !! i = Some x →
  fields f !! j = Some y →
  i ≠ j →
  arrayMove (fields f) i j !! i = Some z →
  let st1 := handleDragEnd (item_id x) (Some (item_id y)) st in
  let st2 := handleDragEnd (item_id x) (Some (item_id z)) st1 in
  fields <$> selectedForm st1 = Some (arrayMove (fields f) i j)
  ∧ selectedForm st2 = Some f.
Proof.
  intros Hsel Hnodup Hx Hy Hij Hz st1 st2.
  assert (Hj : (j < length (fields f))%nat) by (by apply lookup_lt_Some in Hy).
  assert (Hids : item_id x ≠ item_id y).
  { intros Heq. apply Hij. apply (NoDup_lookup _ i j (item_id x) Hnodup);
      rewrite list_lookup_fmap; [by rewrite Hx | by rewrite Hy, Heq]. }
  assert (Hst1 : st1 = restore_draft
                         (setSelectedCopy
                            {| formId := formId f; title := title f;
                               fields := arrayMove (fields f) i j |} st)).
  { subst st1. apply handleDragEnd_moves; try done; by apply findIndex_NoDup. }
  assert (Hsel1 : selectedForm st1
                  = Some {| formId := formId f; title := title f;
                            fields := arrayMove (fields f) i j |}).
  { by rewrite Hst1, selectedForm_restore_draft. }
  split; [by rewrite Hsel1 |].
  pose proof (arrayMove_target (fields f) i j x Hx Hj) as Hx'.
  assert (Hnodup' : NoDup (item_id <$> arrayMove (fields f) i j)).
  { by rewrite (arrayMove_perm (fields f) i j x Hx). }
  assert (Hids' : item_id x ≠ item_id z).
  { intros Heq. apply Hij.
    apply (NoDup_lookup _ i j (item_id x) Hnodup');
      rewrite list_lookup_fmap; [by rewrite Hz, Heq | by rewrite Hx']. }
  subst st2.
  rewrite (handleDragEnd_moves _ _ _ j i st1 Hsel1 Hids');
    [| by apply (findIndex_NoDup (arrayMove (fields f) i j))
     | by apply (findIndex_NoDup (arrayMove (fields f) i j)) ].
  rewrite selectedForm_restore_draft. simpl.
  rewrite (arrayMove_inverse _ _ _ x Hx Hj). by destruct f.
Qed.

Lemma drag_back_restores_order_witness :
  let st := sample_page ∅ in
  let st1 := handleDragEnd (item_id (Simple Sample.country))
               (Some (item_id (Simple Sample.smoker))) st in
  let st2 := handleDragEnd (item_id (Simple Sample.country))
               (Some (item_id (Simple Sample.state))) st1 in
  fields <$> selectedForm st1
  = Some (arrayMove (fields Sample.health) 0 2)
  ∧ selectedForm st2 = Some Sample.health.
Proof.
  intros st.
  assert (Hnodup : NoDup (item_id <$> fields Sample.health)).
  { apply (bool_decide_unpack _). by vm_compute. }
  assert (Hij : 0%nat ≠ 2%nat) by discriminate.
  exact (drag_back_restores_order Sample.health 0 2 (Simple Sample.country)
           (Simple Sample.smoker) (Simple Sample.state) st
           eq_refl Hnodup eq_refl eq_refl Hij eq_refl).
Defined.

Lemma flat_map_Permutation {A B} (g : A → list B) (l1 l2 : list A) :
  l1 ≡ₚ l2 → flat_map g l1 ≡ₚ flat_map g l2.
Proof.
  induction 1 as [| a l1 l2 _ IH | a b l | l1 l2 l3 _ IH1 _ IH2]; simpl.
  - done.
  - by rewrite IH.
  - rewrite !app_assoc. by rewrite (Permutation_app_comm (g b) (g a)).
  - by rewrite IH1.
Qed.

Lemma List_filter_Permutation {A} (p : A → bool) (l1 l2 : list A) :
  l1 ≡ₚ l2 → List.filter p l1 ≡ₚ List.filter p l2.
Proof.
  induction 1 as [| a l1 l2 _ IH | a b l | l1 l2 l3 _ IH1 _ IH2]; simpl.
  - done.
  - destruct (p a); by rewrite IH.
  - destruct (p a), (p b); try done. apply perm_swap.
  - by rewrite IH1.
Qed.

Lemma missing_Permutation (f f' : FormStructure) (values : AnswerSet) :
  fields f' ≡ₚ fields f → missing f' values ≡ₚ missing f values.
Proof.
  intros Hperm. unfold missing, allSimpleFields.
  apply Permutation_map, List_filter_Permutation.
  by apply flat_map_Permutation.
Qed.

(** X8. Reordering does not change what a submit attempt checks. Whatever is
    dragged where, the form keeps its id and title, its items are the same
    items in some order, and for every set of answers the fields found
    missing are the same; so a submission is blocked after the drag exactly
    when it was blocked before it. *)
Theorem reordering_keeps_validation (active : string) (over : option string)
    (f : FormStructure) (st : state) :
  selectedForm st = Some f →
  ∃ f', selectedForm (handleDragEnd active over st) = Some f'
        ∧ formId f' = formId f
        ∧ title f' = title f
        ∧ fields f' ≡ₚ fields f
        ∧ (∀ values, missing f' values ≡ₚ missing f values)
        ∧ (∀ values, missing f' values = [] ↔ missing f values = []).
Proof.
  intros Hsel.
  assert (Hcases :
    handleDragEnd active over st = st
    ∨ ∃ i j x, fields f !! i = Some x
               ∧ selectedForm (handleDragEnd active over st)
                 = Some {| formId := formId f; title := title f;
                           fields := arrayMove (fields f) i j |}).
  { unfold handleDragEnd. rewrite Hsel.
    destruct over as [over |]; [| by left].
    destruct (String.eqb active over); [by left |].
    destruct (findIndex _ (fields f)) as [i |] eqn:Hold; [| by left].
    destruct (findIndex (λ x, String.eqb (item_id x) over) (fields f))
      as [j |] eqn:Hnew; [| by left].
    right. apply findIndex_Some in Hold as (x & Hx & _).
    exists i, j, x. split; [done |]. by rewrite selectedForm_restore_draft. }
  assert (Hfrom_perm : ∀ f', fields f' ≡ₚ fields f →
            (∀ values, missing f' values ≡ₚ missing f values)
            ∧ (∀ values, missing f' values = [] ↔ missing f values = [])).
  { intros f' Hperm.
    assert (Hm : ∀ values, missing f' values ≡ₚ missing f values)
      by (intros values; by apply missing_Permutation).
    split; [exact Hm |]. intros values. specialize (Hm values). split; intros Hnil.
    - rewrite Hnil in Hm. by apply Permutation_nil_l in Hm.
    - rewrite Hnil in Hm. by apply Permutation_nil_r in Hm. }
  destruct Hcases as [-> | (i & j & x & Hx & ->)].
  - exists f. repeat split; try done; by apply Hfrom_perm.
  - eexists. split; [done |]. simpl.
    assert (Hperm : arrayMove (fields f) i j ≡ₚ fields f)
      by apply (arrayMove_perm _ _ _ x Hx).
    split; [done |]. split; [done |]. split; [done |].
    by apply Hfrom_perm.
Qed.

Lemma reordering_keeps_validation_witness :
  ∃ f', selectedForm (handleDragEnd "smoker" (Some "country") (sample_page ∅))
        = Some f'
        ∧ formId f' = "health_v1"
        ∧ fields f' ≡ₚ fields Sample.health.
Proof.
  destruct (reordering_keeps_validation "smoker" (Some "country")
              Sample.health (sample_page ∅) eq_refl)
    as (f' & Hsel & Hid & _ & Hperm & _).
  exists f'. split; [exact Hsel |]. split; [exact Hid | exact Hperm].
Defined.

(** ** What a change of answer does besides saving *)

(** X9. Only a change of the country sends a request. A change of any other
    field, whatever options the fields of the form declare to depend on it,
    sends nothing, waits for nothing and leaves the cached options, the
    errors and the selected form as they are; it only writes the draft. *)
Theorem only_country_fetches (key : string) (v : option value)
    (rest : list (string * option value)) (allValues : AnswerSet) (st : state) :
  key ≠ "country" →
  let st' := onValuesChange ((key, v) :: rest) allValues st in
  calls st' = calls st
  ∧ awaiting st' = awaiting st
  ∧ dynamicOptions st' = dynamicOptions st
  ∧ fieldErrors st' = fieldErrors st
  ∧ selectedForm st' = selectedForm st
  ∧ formValues st' = formValues st
  ∧ (∀ k, k ≠ draft_key (default EmptyString (formId <$> selectedForm st)) →
       localStorage st' !! k = localStorage st !! k).
Proof.
  intros Hcountry st'. subst st'. unfold onValuesChange.
  apply String.eqb_neq in Hcountry. rewrite Hcountry.
  destruct (String.eqb key EmptyString); [done |].
  rewrite save_draft_fields. simpl. repeat split; try done.
  intros k Hk. destruct (selectedForm st) as [f |]; simpl in *; [| done].
  unfold save. by rewrite lookup_insert_ne.
Qed.

Lemma only_country_fetches_witness :
  let region : SimpleField :=
    {| id := "city"; label := "City"; type := "select"; required := None;
       options := None;
       dynamicOptions_of :=
         Some {| do_dependsOn := "region"; do_endpoint := "/getCities";
                 do_method := "GET" |};
       visibility := None; validation := None |} in
  let f := {| formId := "home_v2"; title := "Home"; fields := [Simple region] |} in
  let st := setSelectedForm (Some f) initial in
  let st' := onValuesChange [("region", Some (VScalar (SStr "North")))]
               {["region" := VScalar (SStr "North")]} st in
  calls st' = [] ∧ dynamicOptions st' = ∅.
Proof.
  intros region f st.
  assert (Hne : "region" ≠ "country") by discriminate.
  destruct (only_country_fetches "region" (Some (VScalar (SStr "North"))) []
              {["region" := VScalar (SStr "North")]} st Hne)
    as (Hcalls & _ & Hopts & _).
  split; [exact Hcalls | exact Hopts].
Defined.

(** ** Submitting twice *)

(** X10. [onFinish] does not look at the submitting flag. A second submit
    attempt made while the first request is under way sends a second
    request; when the first settles, with a failure, the flag is cleared
    although the second is still awaited. *)
Theorem second_submit_is_sent (t : string → string) (f : FormStructure)
    (values1 values2 : AnswerSet) (st : state) :
  selectedForm st = Some f →
  (∀ fld, fld ∈ allSimpleFields f → is_required fld = true →
     shouldShowField fld (formValues st) = true →
     truthy (formValues st !! id fld) = true) →
  let first := length (calls st) in
  let st1 := onFinish t values1 st in
  let st2 := onFinish t values2 st1 in
  let st3 := settle t first Rejected st2 in
  submitting st1 = true
  ∧ calls st2 = calls st ++ [ ApiPost "/insurance/forms/submit" values1;
                              ApiPost "/insurance/forms/submit" values2 ]
  ∧ submitting st3 = false
  ∧ awaiting st3 !! S first = Some AwaitSubmit.
Proof.
  intros Hsel Hall first st1 st2 st3.
  assert (Hm : missing f (formValues st) = []) by (by apply missing_nil).
  assert (Hst1 : st1 = setAwaiting (<[first := AwaitSubmit]> (awaiting st))
                         (submitFormData values1 (setSubmitting true st)).1).
  { subst st1 first. by apply (onFinish_submits t f). }
  assert (Hst2 : st2 = setAwaiting
                         (<[length (calls st1) := AwaitSubmit]> (awaiting st1))
                         (submitFormData values2 (setSubmitting true st1)).1).
  { subst st2. apply (onFinish_submits t f); by rewrite Hst1. }
  assert (Hlen : length (calls st1) = S first).
  { rewrite Hst1. simpl. rewrite length_app. simpl. lia. }
  rewrite Hlen in Hst2.
  assert (Hfirst : awaiting st2 !! first = Some AwaitSubmit).
  { rewrite Hst2. simpl. rewrite lookup_insert_ne by lia.
    rewrite Hst1. simpl. apply lookup_insert_eq. }
  split; [by rewrite Hst1 |]. split.
  - rewrite Hst2. simpl. rewrite Hst1. simpl. by rewrite <- app_assoc.
  - subst st3. rewrite (settle_submit t first Rejected st2 Hfirst). simpl.
    split; [done |]. rewrite lookup_delete_ne by lia.
    rewrite Hst2. simpl. apply lookup_insert_eq.
Qed.

Lemma second_submit_is_sent_witness :
  let values : AnswerSet :=
    {["country" := VScalar (SStr "CA"); "smoker" := Sample.no;
      "gym" := VArray [SStr "Pool"]]} in
  let st := sample_page values in
  let st2 := onFinish Sample.t values (onFinish Sample.t values st) in
  calls st2 = calls st ++ [ ApiPost "/insurance/forms/submit" values;
                            ApiPost "/insurance/forms/submit" values ]
  ∧ submitting (settle Sample.t (length (calls st)) Rejected st2) = false.
Proof.
  intros values st.
  assert (Hall : ∀ fld, fld ∈ allSimpleFields Sample.health →
            is_required fld = true →
            shouldShowField fld (formValues st) = true →
            truthy (formValues st !! id fld) = true).
  { intros fld Hin Hreq Hshow.
    repeat (apply elem_of_cons in Hin as [-> | Hin]; [done |]).
    by apply elem_of_nil in Hin. }
  pose proof (second_submit_is_sent Sample.t Sample.health values values st
                eq_refl Hall) as Htwice.
  exact (conj (proj1 (proj2 Htwice)) (proj1 (proj2 (proj2 Htwice)))).
Defined.

(** ** What the field renderer draws *)

Section Renderer.

Variable t : string → string.

(** X11. The renderer yields nothing in two cases only: for the state field
    while the country holds no truthy value, and for a field that is neither
    the country nor the state and whose kind is not one it knows. *)
Theorem FieldRenderer_none_iff (field : SimpleField) (vals : AnswerSet)
    (options : gmap string (list string)) :
  FieldRenderer t field vals options = None
  ↔ (id field = "state" ∧ falsy (vals !! "country") = true)
    ∨ (id field ≠ "country" ∧ id field ≠ "state"
       ∧ type field ∉ known_types).
Proof.
  unfold FieldRenderer, known_types.
  destruct (String.eqb (id field) "country") eqn:Hcountry.
  { apply String.eqb_eq in Hcountry. split; [done |].
    intros [[Hstate _] | [Hne _]]; [| done]. rewrite Hcountry in Hstate.
    discriminate. }
  apply String.eqb_neq in Hcountry.
  destruct (String.eqb (id field) "state") eqn:Hstate.
  { apply String.eqb_eq in Hstate.
    destruct (falsy (vals !! "country")); split; try done.
    - intros _. by left.
    - intros [[_ ?] | (_ & ? & _)]; done. }
  apply String.eqb_neq in Hstate.
  rewrite !not_elem_of_cons.
  repeat match goal with
         | |- context [String.eqb (type field) ?k] =>
             let H := fresh "Hk" in
             destruct (String.eqb (type field) k) eqn:H;
             [ apply String.eqb_eq in H; split; [done |];
               intros [[? _] | (_ & _ & Hnot)]; [done |];
               exfalso; destruct_and!; congruence
             | apply String.eqb_neq in H ]
         end.
  split; [| done]. intros _. right.
  repeat split; try done. apply not_elem_of_nil.
Qed.

(** X12. Whatever the renderer draws for a field is bound to the field's id
    and carries the field's rules: the required rule with the translated
    message when the field is required, no rule otherwise. *)
Theorem FieldRenderer_name_and_rules (field : SimpleField) (vals : AnswerSet)
    (options : gmap string (list string)) (item : FormItem) :
  FieldRenderer t field vals options = Some item →
  fi_name item = id field
  ∧ fi_rules item
    = (if is_required field
       then [ {| rule_required := true; rule_message := t "required" |} ]
       else []).
Proof.
  unfold FieldRenderer.
  destruct (String.eqb (id field) "country") eqn:Hcountry.
  { apply String.eqb_eq in Hcountry. intros [= <-]. by rewrite Hcountry. }
  destruct (String.eqb (id field) "state") eqn:Hstate.
  { apply String.eqb_eq in Hstate.
    destruct (falsy (vals !! "country")); [done |].
    intros [= <-]. by rewrite Hstate. }
  repeat match goal with
         | |- context [String.eqb (type field) ?k] =>
             destruct (String.eqb (type field) k); [by intros [= <-] |]
         end.
  done.
Qed.

(** X13. For the country and the state, the declared kind, label, validation
    and visibility play no part in what is drawn: two fields with the same
    such id, the same required flag and the same options are drawn alike. *)
Theorem special_fields_ignore_kind (field field' : SimpleField)
    (vals : AnswerSet) (cache : gmap string (list string)) :
  id field = "country" ∨ id field = "state" →
  id field' = id field →
  required field' = required field →
  options field' = options field →
  FieldRenderer t field' vals cache = FieldRenderer t field vals cache.
Proof.
  intros Hid Hsame Hreq Hopts. unfold FieldRenderer.
  unfold rules_of, is_required, options_or_empty.
  rewrite Hsame, Hreq, Hopts.
  destruct Hid as [-> | ->]; reflexivity.
Qed.

(** X14. Once a request for the states has settled, the state field offers
    the placeholder followed by the options of that response and nothing
    else: after a failure it offers the placeholder alone, also when the
    field declares options of its own. *)
Theorem state_options_after_fetch (field : SimpleField) (vals : AnswerSet)
    (i : nat) (res : Response) (cf : option FormStructure)
    (allValues : AnswerSet) (st : state) :
  id field = "state" →
  truthy (vals !! "country") = true →
  awaiting st !! i = Some (AwaitStates cf allValues) →
  fi_control <$> FieldRenderer t field vals (dynamicOptions (settle t i res st))
  = Some (CSelect ((EmptyString, t "selectAnOption")
                   :: map (λ o, (o, o)) (fetched_options res))).
Proof.
  intros Hid Hcountry Hi.
  rewrite (settle_states_options t i res st cf allValues Hi).
  unfold FieldRenderer. rewrite Hid. simpl.
  unfold falsy. rewrite Hcountry. simpl.
  by rewrite lookup_insert_eq.
Qed.

End Renderer.

Lemma FieldRenderer_name_and_rules_witness :
  fi_name <$> FieldRenderer Sample.t Sample.gym ∅ ∅ = Some "gym"
  ∧ fi_rules <$> FieldRenderer Sample.t Sample.gym ∅ ∅
    = Some [ {| rule_required := true; rule_message := "required" |} ].
Proof.
  destruct (FieldRenderer Sample.t Sample.gym ∅ ∅) as [item |] eqn:Hitem;
    [| discriminate].
  destruct (FieldRenderer_name_and_rules Sample.t Sample.gym ∅ ∅ item Hitem)
    as (Hname & Hrules).
  simpl. by rewrite Hname, Hrules.
Defined.

Lemma special_fields_ignore_kind_witness :
  FieldRenderer Sample.t
    {| id := "country"; label := "Pays"; type := "slider";
       required := Some true; options := Some ["US"; "CA"];
       dynamicOptions_of := None;
       visibility := Some (Sample.when_smoker "equals");
       validation := None |} ∅ ∅
  = FieldRenderer Sample.t Sample.country ∅ ∅.
Proof.
  apply special_fields_ignore_kind; [by left | reflexivity ..].
Defined.

Lemma state_options_after_fetch_witness :
  let declared : SimpleField :=
    {| id := "state"; label := "State"; type := "select"; required := None;
       options := Some ["Elsewhere"]; dynamicOptions_of := None;
       visibility := None; validation := None |} in
  let vals : AnswerSet := {["country" := VScalar (SStr "US")]} in
  let st := onValuesChange [("country", Some (VScalar (SStr "US")))] vals
              (sample_page ∅) in
  fi_control <$> FieldRenderer Sample.t declared vals
                   (dynamicOptions (settle Sample.t 0 Rejected st))
  = Some (CSelect ((EmptyString, Sample.t "selectAnOption")
                   :: map (λ o, (o, o)) (fetched_options Rejected))).
Proof.
  intros declared vals st.
  exact (state_options_after_fetch Sample.t declared vals 0 Rejected
           (Some Sample.health) vals st eq_refl eq_refl eq_refl).
Defined.

(** ** What the page shows of a form *)

Definition sortable_key (s : Sortable) : string :=
  match s with
  | SGroup key _ _ => key
  | SField key _ => key
  end.

(** An item is shown when it is a visible simple field, or a group with a
    visible member. *)
Definition item_shown (values : AnswerSet) (item : FieldItem) : bool :=
  match item with
  | Simple f => shouldShowField f values
  | Group g => existsb (λ f, shouldShowField f values) (g_fields g)
  end.

Lemma filter_nil_existsb {A} (p : A → bool) (l : list A) :
  (length (List.filter p l) =? 0)%nat = negb (existsb p l).
Proof.
  induction l as [| a l IH]; [done |]. simpl. by destruct (p a).
Qed.

(** X15. The page shows the items of the form in the order of the form, each
    under its own id, and leaves out exactly the simple fields that are not
    visible and the groups without a visible member. *)
Theorem render_keys (t : string → string) (values : AnswerSet)
    (cache : gmap string (list string)) (items : list FieldItem) :
  omap (fmap sortable_key) (render_fields t values cache items)
  = item_id <$> List.filter (item_shown values) items
  ∧ length (render_fields t values cache items) = length items.
Proof.
  split; [| apply length_map]. unfold render_fields.
  induction items as [| item items IH]; [done |]. cbn [map List.filter].
  destruct item as [f | g]; cbn [render_item item_shown].
  - destruct (shouldShowField f values); cbn; by rewrite IH.
  - rewrite filter_nil_existsb.
    destruct (existsb _ (g_fields g)); cbn; by rewrite IH.
Qed.

(** X16. Two sets of answers with the same JSON text are the same: the text
    of a draft determines the answers. *)
Theorem stringify_inj (A B : AnswerSet) :
  Json.stringify A = Json.stringify B → A = B.
Proof.
  intros Heq. apply (f_equal Json.parse) in Heq.
  rewrite !JsonFacts.parse_stringify in Heq. by injection Heq.
Qed.

Lemma stringify_inj_witness :
  (<["a" := VScalar (SNum 1)]> (<["b" := VArray []]> ∅) : AnswerSet)
  = <["b" := VArray []]> (<["a" := VScalar (SNum 1)]> ∅).
Proof. apply stringify_inj. reflexivity. Defined.

(** * The list of submissions

    [SubmissionListPage] (src/pages/SubmissionListPage.tsx, first document of
    the file): the choice of the columns of the table and the rows given to
    it.  The [sorter] of a column compares with [localeCompare] and is left
    out. *)

Module SubmissionList.

(** Modelled from the spec: types/submissionTypes.ts is not among the
    sources.  [SubmissionResponse] has the members the page reads, the
    columns (which may be missing) and the rows; a row ([SubmissionData]) is
    a record of values. *)
Record SubmissionResponse : Type := {
  columns : option (list string);
  data : list AnswerSet
}.

(** The effect on [data] and [selectedColumns]: an empty selection is filled
    with every column once the response has columns. *)
Definition fill_selection (response : option SubmissionResponse)
    (selectedColumns : list string) : list string :=
  match response with
  | Some r =>
      match columns r with
      | Some (c :: cs) =>
          if (length selectedColumns =? 0)%nat then "index" :: c :: cs
          else selectedColumns
      | _ => selectedColumns
      end
  | None => selectedColumns
  end.

(** [["index", ...serverColumns]] *)
Definition allColumns (r : SubmissionResponse) : list string :=
  "index" :: default [] (columns r).

(** [data.data.map((item, i) => ({ ...item, index: i + 1 }))] *)
Definition tableData (r : SubmissionResponse) : list AnswerSet :=
  imap (λ i item, <["index" := VScalar (SNum (Z.of_nat i + 1))]> item) (data r).

(** [selectedColumns.includes(c)] *)
Definition includes (c : string) (selectedColumns : list string) : bool :=
  existsb (String.eqb c) selectedColumns.

(** The [onChange] of the checkbox of column [c], with [e.target.checked]. *)
Definition onChange (c : string) (checked : bool) (prev : list string)
    : list string :=
  if checked then prev ++ [c]
  else List.filter (λ x, negb (String.eqb x c)) prev.

(** A click on the checkbox of [c]: the box, which shows whether [c] is
    selected, reports the opposite, and the effect runs on the new
    selection. *)
Definition click (response : option SubmissionResponse) (c : string)
    (selectedColumns : list string) : list string :=
  fill_selection response
    (onChange c (negb (includes c selectedColumns)) selectedColumns).

Lemma includes_elem_of (c : string) (l : list string) :
  includes c l = true ↔ c ∈ l.
Proof.
  unfold includes. rewrite existsb_exists. split.
  - intros (x & Hin & ->%String.eqb_eq). by apply list_elem_of_In.
  - intros Hin. exists c. split; [by apply list_elem_of_In |].
    apply String.eqb_refl.
Qed.

Lemma elem_of_remove (c x : string) (l : list string) :
  x ∈ List.filter (λ y, negb (String.eqb y c)) l ↔ x ∈ l ∧ x ≠ c.
Proof.
  rewrite (elem_of_List_filter (λ y, negb (String.eqb y c))).
  by rewrite negb_true_iff, String.eqb_neq.
Qed.

Lemma remove_absent (c : string) (l : list string) :
  c ∉ l → List.filter (λ y, negb (String.eqb y c)) l = l.
Proof.
  induction l as [| x l IH]; [done |]. intros [Hne Hnin]%not_elem_of_cons.
  simpl. assert (Hx : String.eqb x c = false) by (by apply String.eqb_neq).
  rewrite Hx. simpl. by rewrite IH.
Qed.

(** X17. The rows given to the table are the rows of the response, in
    order, each with its position counted from one as its index, also when
    the row came with an index of its own; no other member of a row
    changes. *)
Theorem tableData_rows (r : SubmissionResponse) :
  length (tableData r) = length (data r)
  ∧ ∀ i row, data r !! i = Some row →
      ∃ row', tableData r !! i = Some row'
              ∧ row' !! "index" = Some (VScalar (SNum (Z.of_nat i + 1)))
              ∧ ∀ k, k ≠ "index" → row' !! k = row !! k.
Proof.
  unfold tableData. split; [apply length_imap |].
  intros i row Hrow. eexists. split.
  - rewrite list_lookup_imap, Hrow. reflexivity.
  - split; [apply lookup_insert_eq |]. intros k Hk.
    by apply lookup_insert_ne.
Qed.

(** X18. The selection cannot be emptied while the response has columns: a
    click that unchecks the only selected column selects every column
    again, the index column first. *)
Theorem last_column_cannot_be_unchecked (r : SubmissionResponse) (c : string)
    (selectedColumns : list string) :
  (∃ c0 cs, columns r = Some (c0 :: cs)) →
  click (Some r) c selectedColumns ≠ []
  ∧ click (Some r) c [c] = allColumns r.
Proof.
  intros (c0 & cs & Hcols). unfold click, fill_selection, allColumns.
  rewrite Hcols. split.
  - destruct (onChange c _ selectedColumns); simpl; discriminate.
  - unfold onChange, includes. cbn [existsb]. rewrite String.eqb_refl.
    cbn [orb negb List.filter]. rewrite String.eqb_refl. reflexivity.
Qed.

(** X19. Clicks keep the selection in order: a selection without repeats
    that holds only columns of the table stays so after a click on the
    checkbox of any column of the table, when the columns of the table are
    all different. *)
Theorem click_keeps_selection_valid (r : SubmissionResponse) (c : string)
    (selectedColumns : list string) :
  NoDup (allColumns r) →
  c ∈ allColumns r →
  NoDup selectedColumns →
  selectedColumns ⊆ allColumns r →
  NoDup (click (Some r) c selectedColumns)
  ∧ click (Some r) c selectedColumns ⊆ allColumns r.
Proof.
  intros Hall Hc Hnodup Hsub.
  set (sel := onChange c (negb (includes c selectedColumns)) selectedColumns).
  assert (Hsel : NoDup sel ∧ sel ⊆ allColumns r).
  { subst sel. unfold onChange.
    destruct (includes c selectedColumns) eqn:Hinc; simpl.
    - split.
      + apply NoDup_ListNoDup, List.NoDup_filter. by apply NoDup_ListNoDup.
      + intros x [Hx _]%elem_of_remove. by apply Hsub.
    - assert (Hnin : c ∉ selectedColumns).
      { intros Hin. apply includes_elem_of in Hin. congruence. }
      split.
      + apply NoDup_app. split; [done |]. split; [| apply NoDup_singleton].
        intros x Hx ->%list_elem_of_singleton. done.
      + intros x [Hx | ->%list_elem_of_singleton]%elem_of_app; [by apply Hsub | done]. }
  unfold click. fold sel. unfold fill_selection.
  destruct (columns r) as [[| c0 cs] |] eqn:Hcols; try done.
  destruct (length sel =? 0)%nat; [| done].
  unfold allColumns in *. rewrite Hcols in *. simpl in *. done.
Qed.

(** X20. Unchecking a column and checking it again moves it to the last
    place of the table; checking an unselected column and unchecking it
    again gives the selection back. (With another column selected, so that
    the selection is not filled again in between.) *)
Theorem click_twice (response : option SubmissionResponse) (c other : string)
    (selectedColumns : list string) :
  other ≠ c →
  other ∈ selectedColumns →
  (c ∈ selectedColumns →
   click response c (click response c selectedColumns)
   = List.filter (λ x, negb (String.eqb x c)) selectedColumns ++ [c])
  ∧ (c ∉ selectedColumns →
     click response c (click response c selectedColumns) = selectedColumns).
Proof.
  intros Hne Hother.
  assert (Hkeep : ∀ sel, other ∈ sel → fill_selection response sel = sel).
  { intros sel Hin. unfold fill_selection.
    destruct response as [r |]; [| done].
    destruct (columns r) as [[| c0 cs] |]; try done.
    destruct sel; [by apply elem_of_nil in Hin | done]. }
  split; intros Hc.
  - assert (H1 : click response c selectedColumns
                 = List.filter (λ x, negb (String.eqb x c)) selectedColumns).
    { unfold click, onChange.
      rewrite (proj2 (includes_elem_of c selectedColumns) Hc). simpl.
      apply Hkeep. by apply elem_of_remove. }
    rewrite H1. unfold click, onChange.
    assert (Hinc : includes c (List.filter (λ x, negb (String.eqb x c))
                                 selectedColumns) = false).
    { apply not_true_is_false. intros Hin. apply includes_elem_of in Hin.
      apply elem_of_remove in Hin. by destruct Hin. }
    rewrite Hinc. simpl. apply Hkeep. apply elem_of_app. left.
    by apply elem_of_remove.
  - assert (Hinc : includes c selectedColumns = false).
    { apply not_true_is_false. intros Hin. by apply includes_elem_of in Hin. }
    assert (H1 : click response c selectedColumns = selectedColumns ++ [c]).
    { unfold click, onChange. rewrite Hinc. simpl. apply Hkeep.
      apply elem_of_app. by left. }
    rewrite H1. unfold click, onChange.
    assert (Hinc' : includes c (selectedColumns ++ [c]) = true).
    { apply includes_elem_of, elem_of_app. right. apply list_elem_of_here. }
    rewrite Hinc'. simpl. rewrite List.filter_app. simpl.
    rewrite String.eqb_refl. simpl. rewrite app_nil_r.
    rewrite remove_absent by done. apply Hkeep, Hother.
Qed.

End SubmissionList.

(** A response with two columns and two rows. *)
Definition sample_response : SubmissionList.SubmissionResponse :=
  {| SubmissionList.columns := Some ["Full Name"; "Age"];
     SubmissionList.data :=
       [ {["Full Name" := VScalar (SStr "Ada"); "Age" := VScalar (SNum 36)]};
         {["Full Name" := VScalar (SStr "Alan"); "Age" := VScalar (SNum 41);
           "index" := VScalar (SNum 7)]} ] |}.

Lemma last_column_cannot_be_unchecked_witness :
  SubmissionList.click (Some sample_response) "Age" ["Age"]
  = ["index"; "Full Name"; "Age"].
Proof.
  assert (Hcols : ∃ c0 cs, SubmissionList.columns sample_response
                           = Some (c0 :: cs)) by (by eexists _, _).
  exact (proj2 (SubmissionList.last_column_cannot_be_unchecked
                  sample_response "Age" ["Age"] Hcols)).
Defined.

Lemma click_keeps_selection_valid_witness :
  NoDup (SubmissionList.click (Some sample_response) "Age" ["index"; "Age"])
  ∧ SubmissionList.click (Some sample_response) "Age" ["index"; "Age"]
    ⊆ SubmissionList.allColumns sample_response.
Proof.
  assert (Hall : NoDup (SubmissionList.allColumns sample_response)).
  { apply (bool_decide_unpack _). by vm_compute. }
  assert (Hsel : NoDup ["index"; "Age"]).
  { apply (bool_decide_unpack _). by vm_compute. }
  apply SubmissionList.click_keeps_selection_valid; try done.
  - do 2 apply list_elem_of_further. apply list_elem_of_here.
  - intros x Hx.
    repeat (apply elem_of_cons in Hx as [-> | Hx];
            [apply (bool_decide_unpack _); by vm_compute |]).
    by apply elem_of_nil in Hx.
Defined.

Lemma click_twice_witness :
  SubmissionList.click (Some sample_response) "Full Name"
    (SubmissionList.click (Some sample_response) "Full Name"
       ["index"; "Full Name"; "Age"])
  = ["index"; "Age"; "Full Name"].
Proof.
  assert (Hne : "Age" ≠ "Full Name") by discriminate.
  destruct (SubmissionList.click_twice (Some sample_response) "Full Name" "Age"
              ["index"; "Full Name"; "Age"] Hne) as (Hmove & _).
  - do 2 apply list_elem_of_further. apply list_elem_of_here.
  - apply Hmove. apply list_elem_of_further, list_elem_of_here.
Defined.

(** * The theme

    [ThemeProvider] (src/context/themeContext.tsx): the dark mode flag and
    the classes of the document element. *)

Module Theme.

Record theme : Type := {
  darkMode : bool;
  classList : gset string        (* document.documentElement.classList *)
}.

(** The provider as it is first rendered. *)
Definition initial_theme (classes : gset string) : theme :=
  {| darkMode := false; classList := classes |}.

Definition toggleDarkMode (th : theme) : theme :=
  let nextMode := negb (darkMode th) in
  {| darkMode := nextMode;
     classList := if nextMode then classList th ∪ {["dark"]}
                  else classList th ∖ {["dark"]} |}.

(** X21. After any toggle the document has the class dark exactly when the
    dark mode is on, and its other classes are untouched; two toggles give
    the mode back, and the classes too when they agreed with the mode. *)
Theorem toggle_keeps_class_in_step (th : theme) :
  ("dark" ∈ classList (toggleDarkMode th) ↔ darkMode (toggleDarkMode th) = true)
  ∧ (∀ c, c ≠ "dark" → c ∈ classList (toggleDarkMode th) ↔ c ∈ classList th)
  ∧ darkMode (toggleDarkMode (toggleDarkMode th)) = darkMode th
  ∧ (("dark" ∈ classList th ↔ darkMode th = true) →
     toggleDarkMode (toggleDarkMode th) = th).
Proof.
  assert (Hset : ∀ (c : string) (classes : gset string),
            (c ∈ classes ∖ {["dark"]} ↔ c ∈ classes ∧ c ≠ "dark")
            ∧ (c ∈ classes ∪ {["dark"]} ↔ c ∈ classes ∨ c = "dark")).
  { intros c classes.
    rewrite elem_of_difference, elem_of_union, elem_of_singleton. tauto. }
  destruct th as [[] classes]; unfold toggleDarkMode; simpl.
  - split; [| split; [| split]].
    + rewrite (proj1 (Hset _ _)). intuition congruence.
    + intros c Hc. rewrite (proj1 (Hset _ _)). tauto.
    + reflexivity.
    + intros Hdark. f_equal. apply set_eq. intros c.
      rewrite (proj2 (Hset _ _)), (proj1 (Hset _ _)).
      destruct (decide (c = "dark")) as [-> | Hne]; tauto.
  - split; [| split; [| split]].
    + rewrite (proj2 (Hset _ _)). tauto.
    + intros c Hc. rewrite (proj2 (Hset _ _)). tauto.
    + reflexivity.
    + intros Hdark. f_equal. apply set_eq. intros c.
      rewrite (proj1 (Hset _ _)), (proj2 (Hset _ _)).
      destruct (decide (c = "dark")) as [-> | Hne]; [| tauto].
      split; [tauto |]. intros Hin. apply Hdark in Hin. discriminate.
Qed.

End Theme.

Lemma toggle_keeps_class_in_step_witness :
  Theme.toggleDarkMode (Theme.toggleDarkMode (Theme.initial_theme {["app"]}))
  = Theme.initial_theme {["app"]}.
Proof.
  destruct (Theme.toggle_keeps_class_in_step (Theme.initial_theme {["app"]}))
    as (_ & _ & _ & Hback).
  apply Hback. simpl. split; [| discriminate].
  intros Hin. apply elem_of_singleton in Hin. discriminate.
Defined.

(** * The page as a whole *)

Section Whole.

Variable t : string → string.

(** X22. Selecting an id that no form has leaves no form selected: the page
    shows no field, holds no answer and no cached option, and a submit
    attempt or a drop then changes nothing at all. *)
Theorem selecting_unknown_form (forms : list FormStructure) (val : string)
    (values : AnswerSet) (active : string) (over : option string) (st : state) :
  (∀ f, f ∈ forms → formId f ≠ val) →
  let st' := selectForm forms val st in
  selectedForm st' = None
  ∧ formValues st' = ∅
  ∧ dynamicOptions st' = ∅
  ∧ render t st' = []
  ∧ onFinish t values st' = st'
  ∧ handleDragEnd active over st' = st'.
Proof.
  intros Hnone st'.
  assert (Hfind : List.find (λ x, String.eqb (formId x) val) forms = None).
  { destruct (List.find _ forms) as [f |] eqn:Hf; [| done].
    apply find_some in Hf as [Hin Hid]. apply String.eqb_eq in Hid.
    apply list_elem_of_In in Hin. by apply Hnone in Hin. }
  assert (Hst' : st' = setDynamicOptions (λ _, ∅)
                         (resetFields (setSelectedForm None st))).
  { subst st'. unfold selectForm. rewrite Hfind.
    by destruct (same_object st None). }
  assert (Hsel : selectedForm st' = None) by (by rewrite Hst').
  split; [exact Hsel |].
  split; [by rewrite Hst' |].
  split; [by rewrite Hst' |].
  split; [unfold render; by rewrite Hsel |].
  split; [unfold onFinish; by rewrite Hsel |].
  unfold handleDragEnd. rewrite Hsel. by destruct over.
Qed.

End Whole.

Lemma selecting_unknown_form_witness :
  selectedForm (selectForm [Sample.health; sample_home] "car_v1" (sample_page ∅))
  = None
  ∧ render Sample.t
      (selectForm [Sample.health; sample_home] "car_v1" (sample_page ∅)) = [].
Proof.
  assert (Hnone : ∀ f, f ∈ [Sample.health; sample_home] → formId f ≠ "car_v1").
  { intros f Hf.
    repeat (apply elem_of_cons in Hf as [-> | Hf]; [discriminate |]).
    by apply elem_of_nil in Hf. }
  destruct (selecting_unknown_form Sample.t [Sample.health; sample_home]
              "car_v1" ∅ "a" None (sample_page ∅) Hnone)
    as (Hsel & _ & _ & Hrender & _).
  split; [exact Hsel | exact Hrender].
Defined.


(** * Where the page departs from what is asked of it *)

(** ** A required field named like an inherited member *)

(** C2. The code does not hold to it for a field whose id is the name of a
    member every object inherits.  [formValues[fld.id]] then finds that
    member when the form holds no answer under the id, and the test counts
    the field as answered: when the other required and visible fields hold
    a value, the submit attempt sends the request and marks nothing,
    although this required and visible field is empty. *)
Theorem inherited_member_counts_as_answer (t : string → string)
    (f : FormStructure) (fld : SimpleField) (values : AnswerSet) (st : state) :
  selectedForm st = Some f →
  fld ∈ allSimpleFields f →
  is_required fld = true →
  shouldShowField fld (formValues st) = true →
  id fld ∈ inherited_members →
  formValues st !! id fld = None →
  (∀ fld', fld' ∈ allSimpleFields f → is_required fld' = true →
     shouldShowField fld' (formValues st) = true →
     id fld' ≠ id fld →
     truthy (formValues st !! id fld') = true) →
  missing f (formValues st) = []
  ∧ calls (onFinish t values st)
    = calls st ++ [ApiPost "/insurance/forms/submit" values]
  ∧ fieldErrors (onFinish t values st) = fieldErrors st.
Proof.
  intros Hsel Hin Hreq Hshow Hname Hnone Hothers.
  assert (Hfld : member_truthy (member_of (formValues st) (id fld)) = true).
  { unfold member_of. rewrite Hnone. by rewrite bool_decide_eq_true_2. }
  assert (Hm : missing f (formValues st) = []).
  { apply elem_of_nil_inv. intros k Hk.
    apply elem_of_missing in Hk as (fld' & Hin' & _ & Hreq' & Hshow' & Hfalsy).
    destruct (decide (id fld' = id fld)) as [Heq | Hne].
    - rewrite Heq in Hfalsy. congruence.
    - apply (Hothers fld' Hin' Hreq' Hshow') in Hne.
      apply member_truthy_own in Hne. congruence. }
  split; [exact Hm |].
  by rewrite (onFinish_submits t f values st Hsel Hm).
Qed.

(** A form whose only field, required, is named toString. *)
Definition sample_notes : FormStructure :=
  {| formId := "notes_v1"; title := "Notes";
     fields :=
       [ Simple {| id := "toString"; label := "Notes"; type := "text";
                   required := Some true; options := None;
                   dynamicOptions_of := None; visibility := None;
                   validation := None |} ] |}.

Lemma inherited_member_counts_as_answer_witness :
  let st := setSelectedForm (Some sample_notes) initial in
  formValues st !! "toString" = None
  ∧ calls (onFinish Sample.t ∅ st) = [ApiPost "/insurance/forms/submit" ∅]
  ∧ fieldErrors (onFinish Sample.t ∅ st) = ∅.
Proof.
  intros st.
  assert (Hname : "toString" ∈ inherited_members).
  { apply (bool_decide_unpack _). by vm_compute. }
  destruct (inherited_member_counts_as_answer Sample.t sample_notes
              {| id := "toString"; label := "Notes"; type := "text";
                 required := Some true; options := None;
                 dynamicOptions_of := None; visibility := None;
                 validation := None |} ∅ st eq_refl)
    as (_ & Hcalls & Herrors); try done.
  - apply list_elem_of_here.
  - intros fld' Hin _ _ Hne. apply list_elem_of_singleton in Hin. by subst fld'.
Defined.

(** ** What a submission carries *)

(** The names of the [Form.Item]s among what the page renders: the fields
    that are registered with the form. *)
Definition form_item_names (rendered : list (option Sortable)) : list string :=
  flat_map
    (λ entry,
       match entry with
       | Some (SField _ (Some item)) => [fi_name item]
       | Some (SField _ None) => []
       | Some (SGroup _ _ children) => omap (λ child, fi_name <$> child.2) children
       | None => []
       end)
    rendered.

Definition registered (t : string → string) (st : state) : list string :=
  form_item_names (render t st).

(** [form.getFieldsValue()] of the form library, which is also what it hands
    to [onFinish]: the members of the form's store under the names of the
    registered fields.  The store keeps the value of a field that is no
    longer rendered; this reading leaves it out. *)
Definition getFieldsValue (store : AnswerSet) (names : list string) : AnswerSet :=
  filter (λ member, member.1 ∈ names) store.

Lemma getFieldsValue_lookup (store : AnswerSet) (names : list string)
    (k : string) :
  getFieldsValue store names !! k
  = if decide (k ∈ names) then store !! k else None.
Proof.
  unfold getFieldsValue. apply option_eq. intros v.
  rewrite map_lookup_filter_Some. simpl.
  destruct (decide (k ∈ names)) as [Hin | Hout].
  - tauto.
  - split; [tauto | discriminate].
Qed.

(** C4, as the code has it. A submit attempt made while every required and
    visible field holds a value the code counts as present sets the page to
    submitting and sends exactly one request, whose payload is the object
    the form hands to [onFinish], passed on as it is: the stored values of
    the fields that are rendered as form items, and no value of a field
    that is not rendered.  When the request succeeds the page goes to the
    list of submissions with a success message; when it fails the page is
    back to awaiting input with a failure message, the answers and the
    drafts untouched. *)
Theorem submission_carries_rendered_fields (t : string → string)
    (f : FormStructure) (store : AnswerSet) (st : state) :
  selectedForm st = Some f →
  (∀ fld, fld ∈ allSimpleFields f → is_required fld = true →
     shouldShowField fld (formValues st) = true →
     truthy (formValues st !! id fld) = true) →
  let values := getFieldsValue store (registered t st) in
  let i := length (calls st) in
  let st1 := onFinish t values st in
  (submitting st1 = true
   ∧ calls st1 = calls st ++ [ApiPost "/insurance/forms/submit" values]
   ∧ awaiting st1 !! i = Some AwaitSubmit
   ∧ (phase_of st = AwaitingInput → phase_of st1 = Submitting))
  ∧ (∀ k, k ∈ registered t st → values !! k = store !! k)
  ∧ (∀ k, k ∉ registered t st → values !! k = None)
  ∧ (∀ body,
       let st2 := settle t i (Resolved body) st1 in
       phase_of st2 = Submitted
       ∧ calls st2 = calls st1
       ∧ messages st2 = messages st ++ [MsgSuccess (t "formSubmittedSuccess")])
  ∧ (let st2 := settle t i Rejected st1 in
     (phase_of st = AwaitingInput → phase_of st2 = AwaitingInput)
     ∧ calls st2 = calls st1
     ∧ messages st2 = messages st ++ [MsgError (t "submissionFailed")]
     ∧ formValues st2 = formValues st
     ∧ localStorage st2 = localStorage st).
Proof.
  intros Hsel Hall values i st1.
  destruct (full_payload_submission t f values st Hsel Hall)
    as (Hstart & Hok & Hfail).
  split; [exact Hstart |].
  split; [| split; [| split; [exact Hok | exact Hfail]]].
  - intros k Hk. subst values. rewrite getFieldsValue_lookup.
    by rewrite decide_True.
  - intros k Hk. subst values. rewrite getFieldsValue_lookup.
    by rewrite decide_False.
Qed.

(** The answers of a visitor who entered a discount code as a smoker and
    then answered that they do not smoke: the store keeps the code. *)
Definition sample_store : AnswerSet :=
  {[ "country" := VScalar (SStr "CA"); "smoker" := Sample.no;
     "discount" := VScalar (SStr "SAVE10"); "gym" := VArray [SStr "Pool"] ]}.

(** What the form gives the page of them: the values of the rendered
    fields. *)
Definition sample_watched : AnswerSet :=
  {[ "country" := VScalar (SStr "CA"); "smoker" := Sample.no;
     "gym" := VArray [SStr "Pool"] ]}.

(** C4 as stated does not hold.  The discount field is hidden and the store
    holds a value for it; the request that is sent carries the values of
    the rendered fields only, without the discount. *)
Lemma hidden_answer_is_not_submitted :
  let st := sample_page sample_watched in
  let values := getFieldsValue sample_store (registered Sample.t st) in
  shouldShowField Sample.discount (formValues st) = false
  ∧ sample_store !! "discount" = Some (VScalar (SStr "SAVE10"))
  ∧ registered Sample.t st = ["country"; "state"; "smoker"; "gym"]
  ∧ calls (onFinish Sample.t values st)
    = [ApiPost "/insurance/forms/submit" sample_watched]
  ∧ sample_watched !! "discount" = None.
Proof. vm_compute. repeat split. Qed.

Lemma submission_carries_rendered_fields_witness :
  let st := sample_page sample_watched in
  let values := getFieldsValue sample_store (registered Sample.t st) in
  calls (onFinish Sample.t values st)
  = calls st ++ [ApiPost "/insurance/forms/submit" values]
  ∧ values !! "smoker" = sample_store !! "smoker".
Proof.
  intros st values.
  assert (Hall : ∀ fld, fld ∈ allSimpleFields Sample.health →
            is_required fld = true →
            shouldShowField fld (formValues st) = true →
            truthy (formValues st !! id fld) = true).
  { intros fld Hin Hreq Hshow.
    repeat (apply elem_of_cons in Hin as [-> | Hin]; [done |]).
    by apply elem_of_nil in Hin. }
  destruct (submission_carries_rendered_fields Sample.t Sample.health
              sample_store st eq_refl Hall)
    as ((_ & Hcalls & _) & Hkept & _).
  split; [exact Hcalls |]. apply Hkept.
  apply (bool_decide_unpack _). by vm_compute.
Defined.

(** ** Options that depend on another field *)

(** A form whose city declares options that depend on the region. *)
Definition sample_city : SimpleField :=
  {| id := "city"; label := "City"; type := "select"; required := None;
     options := Some ["Springfield"];
     dynamicOptions_of :=
       Some {| do_dependsOn := "region"; do_endpoint := "/getCities";
               do_method := "GET" |};
     visibility := None; validation := None |}.

Definition sample_regions : FormStructure :=
  {| formId := "regions_v1"; title := "Regions";
     fields :=
       [ Simple {| id := "region"; label := "Region"; type := "select";
                   required := None; options := Some ["North"; "South"];
                   dynamicOptions_of := None; visibility := None;
                   validation := None |};
         Simple sample_city ] |}.

(** C8 as stated does not hold.  The region is the trigger the city declares.
    When the region is emptied, the cache holds no empty list for the city,
    and the city goes on offering the options it had; when the region
    receives a value, no request is sent for the options of the city. *)
Lemma declared_trigger_is_ignored :
  let st := setSelectedForm (Some sample_regions) initial in
  let emptied :=
    onValuesChange [("region", Some (VScalar (SStr EmptyString)))]
      {["region" := VScalar (SStr EmptyString)]} st in
  let chosen :=
    onValuesChange [("region", Some (VScalar (SStr "North")))]
      {["region" := VScalar (SStr "North")]} st in
  (do_dependsOn <$> dynamicOptions_of sample_city) = Some "region"
  ∧ dynamicOptions emptied !! "city" = None
  ∧ (fi_control <$> FieldRenderer Sample.t sample_city (formValues emptied)
                      (dynamicOptions emptied))
    = Some (CSelect [(EmptyString, "selectAnOption");
                     ("Springfield", "Springfield")])
  ∧ calls emptied = []
  ∧ calls chosen = []
  ∧ dynamicOptions chosen !! "city" = None.
Proof. vm_compute. repeat split. Qed.

(** ** What a group draws *)

(** The renderer draws a form item in three cases: for the country, for the
    state once a country is chosen, and for any other field of a kind it
    knows. *)
Lemma FieldRenderer_is_Some (t : string → string) (field : SimpleField)
    (vals : AnswerSet) (cache : gmap string (list string)) :
  is_Some (FieldRenderer t field vals cache)
  ↔ id field = "country"
    ∨ (id field = "state" ∧ truthy (vals !! "country") = true)
    ∨ (id field ≠ "country" ∧ id field ≠ "state" ∧ type field ∈ known_types).
Proof.
  unfold FieldRenderer, known_types.
  destruct (String.eqb (id field) "country") eqn:Hcountry.
  { apply String.eqb_eq in Hcountry. split; [by left | by eauto]. }
  apply String.eqb_neq in Hcountry.
  destruct (String.eqb (id field) "state") eqn:Hstate.
  { apply String.eqb_eq in Hstate. unfold falsy.
    destruct (truthy (vals !! "country")); simpl; split.
    - intros _. by right; left.
    - by eauto.
    - by intros [? [=]].
    - intros [? | [[_ ?] | (_ & ? & _)]]; done. }
  apply String.eqb_neq in Hstate.
  rewrite !elem_of_cons, elem_of_nil.
  repeat match goal with
         | |- context [String.eqb (type field) ?k] =>
             let H := fresh "Hk" in
             destruct (String.eqb (type field) k) eqn:H;
             [ apply String.eqb_eq in H; split; [| by eauto];
               intros _; right; right; tauto
             | apply String.eqb_neq in H ]
         end.
  split; [by intros [? [=]] |].
  intros [? | [[? _] | (_ & _ & Hin)]]; [done | done |]. tauto.
Qed.

Lemma FieldRenderer_name (t : string → string) (field : SimpleField)
    (vals : AnswerSet) (cache : gmap string (list string)) (item : FormItem) :
  FieldRenderer t field vals cache = Some item → fi_name item = id field.
Proof.
  unfold FieldRenderer.
  destruct (String.eqb (id field) "country") eqn:Hcountry.
  { apply String.eqb_eq in Hcountry. intros [= <-]. by rewrite Hcountry. }
  destruct (String.eqb (id field) "state") eqn:Hstate.
  { apply String.eqb_eq in Hstate.
    destruct (falsy (vals !! "country")); [done |].
    intros [= <-]. by rewrite Hstate. }
  repeat match goal with
         | |- context [String.eqb (type field) ?k] =>
             destruct (String.eqb (type field) k); [by intros [= <-] |]
         end.
  done.
Qed.

(** C5, as the code has it. A group is rendered exactly when one of its
    members is visible under the current answers; with no visible member it
    yields nothing at all.  A rendered group holds its heading and, in
    order, one field-renderer element for each of its visible members and
    none for the others.  Such an element draws a form item, bound to the
    member's id, for the country, for the state once a country is chosen,
    and for any other member of a known kind; for the state without a
    country and for a member of an unknown kind it draws nothing.  So a
    group whose visible members all draw nothing is rendered as its heading
    alone. *)
Theorem group_members_drawn (t : string → string) (g : GroupField)
    (values : AnswerSet) (cache : gmap string (list string)) :
  let visible := List.filter (λ f, shouldShowField f values) (g_fields g) in
  let drawn (f : SimpleField) :=
    id f = "country"
    ∨ (id f = "state" ∧ truthy (values !! "country") = true)
    ∨ (id f ≠ "country" ∧ id f ≠ "state" ∧ type f ∈ known_types) in
  (is_Some (render_item t values cache (Group g))
   ↔ ∃ f, f ∈ g_fields g ∧ shouldShowField f values = true)
  ∧ ((∀ f, f ∈ g_fields g → shouldShowField f values = false) →
     render_item t values cache (Group g) = None)
  ∧ (∀ r, render_item t values cache (Group g) = Some r →
       r = SGroup (g_id g) (g_label g)
             (map (λ f, (id f, FieldRenderer t f values cache)) visible))
  ∧ (∀ f, f ∈ visible ↔ f ∈ g_fields g ∧ shouldShowField f values = true)
  ∧ (∀ f, is_Some (FieldRenderer t f values cache) ↔ drawn f)
  ∧ (∀ f item, FieldRenderer t f values cache = Some item →
       fi_name item = id f)
  ∧ (visible ≠ [] →
     (∀ f, f ∈ visible → ¬ drawn f) →
     render_item t values cache (Group g)
     = Some (SGroup (g_id g) (g_label g) (map (λ f, (id f, None)) visible))).
Proof.
  intros visible drawn.
  destruct (group_rendering t g values cache)
    as (Hsome & Hnone & Hshape & Hmem).
  fold visible in Hshape, Hmem.
  split; [exact Hsome |]. split; [exact Hnone |]. split; [exact Hshape |].
  split; [exact Hmem |].
  split; [intros f; apply FieldRenderer_is_Some |].
  split; [intros f item; apply FieldRenderer_name |].
  intros Hvisible Hnothing.
  destruct (proj2 Hsome) as [r Hr].
  { destruct visible as [| f0 rest] eqn:Hvis; [done |].
    exists f0. apply Hmem, list_elem_of_here. }
  rewrite Hr, (Hshape r Hr). do 2 f_equal.
  apply map_ext_in. intros f Hf. f_equal.
  apply list_elem_of_In, Hnothing in Hf.
  destruct (FieldRenderer t f values cache) as [item |] eqn:Hdraw; [| done].
  exfalso. apply Hf.
  apply (proj1 (FieldRenderer_is_Some t f values cache)). by rewrite Hdraw.
Qed.

(** A group of the state and of a field of an unknown kind. *)
Definition sample_address : GroupField :=
  {| g_id := "address"; g_label := "Address";
     g_fields := [Sample.state; Sample.slider] |}.

(** C5 as stated does not hold.  Both members of the group are visible and
    no country is chosen: the group is rendered, and it holds no field at
    all, since neither member is drawn. *)
Lemma group_shell_without_fields :
  shouldShowField Sample.state ∅ = true
  ∧ shouldShowField Sample.slider ∅ = true
  ∧ render_item Sample.t ∅ ∅ (Group sample_address)
    = Some (SGroup "address" "Address" [("state", None); ("risk", None)])
  ∧ form_item_names [render_item Sample.t ∅ ∅ (Group sample_address)] = [].
Proof. vm_compute. repeat split. Qed.

Lemma group_members_drawn_witness :
  render_item Sample.t ∅ ∅ (Group sample_address)
  = Some (SGroup "address" "Address"
            (map (λ f, (id f, None)) [Sample.state; Sample.slider]))
  ∧ is_Some (FieldRenderer Sample.t Sample.discount
               {["smoker" := Sample.yes]} ∅).
Proof.
  destruct (group_members_drawn Sample.t sample_address ∅ ∅)
    as (_ & _ & _ & _ & _ & _ & Hshell).
  destruct (group_members_drawn Sample.t Sample.habits
              {["smoker" := Sample.yes]} ∅)
    as (_ & _ & _ & _ & Hdrawn & _).
  split.
  - apply Hshell; [done |]. intros f Hf.
    apply elem_of_cons in Hf as [-> | Hf].
    { intros [? | [[_ ?] | (_ & ? & _)]]; done. }
    apply list_elem_of_singleton in Hf as ->.
    intros [? | [[? _] | (_ & _ & Hin)]]; [done | done |].
    revert Hin. apply (bool_decide_unpack _). by vm_compute.
  - apply Hdrawn. right; right.
    repeat split; [done | done |].
    apply (bool_decide_unpack _). by vm_compute.
Defined.
